(** * prime_checker: the CPU primality testers, embedded and verified

    A shallow embedding of [prime_checker/utils.py],
    [prime_checker/cpu_algorithms.py] and the integer parts of
    [prime_checker/gpu_algorithms.py].  Python integers and [mpz] values are
    [Z]; [//] and [%] are [Z.div] and [Z.modulo] (both floor, the sign of the
    divisor, as in Python).  [while] loops run on fuel and answer [None] when
    it runs out; the process-wide [random] module is an explicit state that
    every tester threads. *)

From Stdlib Require Import ZArith Lia Znumtheory Zpow_facts List Bool.
From Stdlib Require Import Zmod.ZmodInv.
From stdpp Require Import gmap strings.
Import ListNotations.
Open Scope Z_scope.

(** ** Python built-ins used by the program *)

Module Py.

(** [int.bit_length]. *)
Definition bit_length (x : Z) : Z :=
  if x =? 0 then 0 else Z.log2 (Z.abs x) + 1.

Fixpoint pos_bit_count (p : positive) : Z :=
  match p with
  | xH => 1
  | xO q => pos_bit_count q
  | xI q => 1 + pos_bit_count q
  end.

(** [int.bit_count]: the number of ones of the absolute value. *)
Definition bit_count (x : Z) : Z :=
  match x with
  | Z0 => 0
  | Zpos p | Zneg p => pos_bit_count p
  end.

Fixpoint range_from (len : nat) (start step : Z) : list Z :=
  match len with
  | O => []
  | S len' => start :: range_from len' (start + step) step
  end.

(** [range(start, stop, step)] for a positive [step]. *)
Definition range (start stop step : Z) : list Z :=
  range_from (Z.to_nat ((stop - start + step - 1) / step)) start step.

Fixpoint pos_digits_lsb (p : positive) : list bool :=
  match p with
  | xH => [true]
  | xO q => false :: pos_digits_lsb q
  | xI q => true :: pos_digits_lsb q
  end.

(** [bin(k)[2:]] for [k >= 0]: the binary digits, the most significant
    first; [true] is the character ['1']. *)
Definition bin_digits (k : Z) : list bool :=
  match k with
  | Zpos p => rev (pos_digits_lsb p)
  | _ => [false]
  end.

(** Exceptions the program raises. *)
Inductive exn : Type :=
| ValueError (msg : string).

(** The outcome of a call that may raise. *)
Inductive outcome (A : Type) : Type :=
| Return (a : A)
| Raise (e : exn).
Arguments Return {A} a.
Arguments Raise {A} e.

Definition raises {A} (o : outcome A) : bool :=
  match o with
  | Return _ => false
  | Raise _ => true
  end.

End Py.

(** ** The process-wide random source

    The state of Python's [random] module is the sequence of raw draws it
    will still hand out.  Every call consumes one draw. *)

Module random.

Definition state : Type := nat -> Z.

Definition next (st : state) : Z * state :=
  (st O, fun i => st (S i)).

(** [random.randrange(lo, hi)], [lo < hi]: a value of [lo .. hi-1]. *)
Definition randrange (lo hi : Z) (st : state) : Z * state :=
  let (r, st') := next st in (lo + r mod (hi - lo), st').

(** [random.getrandbits(k)]: a value of [0 .. 2^k - 1]. *)
Definition getrandbits (k : Z) (st : state) : Z * state :=
  let (r, st') := next st in (r mod 2 ^ k, st').

(** The source after [k] draws. *)
Definition skip (k : nat) (st : state) : state := fun i => st (k + i)%nat.

(** A source that hands out the draws of [l], then zeros. *)
Definition of_list (l : list Z) : state := fun i => nth i l 0.

End random.

(** ** Computations: state of the random source, and divergence

    [None] stands for a run that does not finish within the fuel of its
    loops. *)

Definition M (A : Type) : Type := random.state -> option (A * random.state).

Definition ret {A} (a : A) : M A := fun st => Some (a, st).

Definition bind {A B} (c : M A) (k : A -> M B) : M B :=
  fun st => match c st with
            | Some (a, st') => k a st'
            | None => None
            end.

Definition diverge {A} : M A := fun _ => None.

Definition lift_option {A} (o : option A) : M A :=
  fun st => match o with
            | Some a => Some (a, st)
            | None => None
            end.

Definition lift_random {A} (f : random.state -> A * random.state) : M A :=
  fun st => Some (f st).

Notation "'let*' x := c 'in' k" := (bind c (fun x => k))
  (at level 10, x name, c at level 100, k at level 200).

(** The value a finished run returns. *)
Definition result_of {A} (r : option (A * random.state)) : option A :=
  match r with
  | Some (a, _) => Some a
  | None => None
  end.

(** ** gmpy2, the arbitrary-precision library the program calls *)

(** [gmpy2.is_prime(n, reps)] is a probabilistic test whose answers the
    program takes as they come; the development is parametric in it. *)
Class Gmpy2 : Type := { gmpy2_is_prime : Z -> Z -> bool }.

Module gmpy2.

(** [gmpy2.powmod(base, exp, mod)] for [exp >= 0]. *)
Definition powmod (base exp modulus : Z) : Z := Zpow_mod base exp modulus.

(** [gmpy2.jacobi(a, n)] for odd [n > 0], by the binary algorithm: halve
    an even [a] (the sign flips when [n] is 3 or 5 mod 8), otherwise swap
    by quadratic reciprocity and reduce. *)
Fixpoint jacobi_loop (fuel : nat) (a n r : Z) : Z :=
  match fuel with
  | O => 0
  | S fuel' =>
      if a =? 0 then (if n =? 1 then r else 0)
      else if Z.even a then
        jacobi_loop fuel' (a / 2) n
          (if (n mod 8 =? 3) || (n mod 8 =? 5) then - r else r)
      else
        jacobi_loop fuel' (n mod a) a
          (if (a mod 4 =? 3) && (n mod 4 =? 3) then - r else r)
  end.

Definition jacobi (a n : Z) : Z :=
  let b := Z.log2 n + 2 in
  jacobi_loop (Z.to_nat (2 * b * b)) (a mod n) n 1.

(** [gmpy2.isqrt(n)]: the integer square root; [None] stands for the
    [ValueError] it raises on a negative argument. *)
Definition isqrt (n : Z) : option Z :=
  if n <? 0 then None else Some (Z.sqrt n).

(** [gmpy2.is_prime(n)], 25 repetitions by default. *)
Definition is_prime `{Gmpy2} (n : Z) : bool := gmpy2_is_prime n 25.

End gmpy2.

(** A reference instance of the library: the exact answer by trial
    division.  It is what [gmpy2.is_prime] returns below 2^64, and serves
    to run the program on concrete inputs. *)
Fixpoint has_divisor_from (fuel : nat) (i n : Z) : bool :=
  match fuel with
  | O => false
  | S fuel' =>
      if n <? i * i then false
      else if n mod i =? 0 then true
      else has_divisor_from fuel' (i + 1) n
  end.

Definition trial_division_is_prime (n : Z) : bool :=
  (2 <=? n) && negb (has_divisor_from (Z.to_nat (Z.sqrt n)) 2 n).

Definition reference_gmpy2 : Gmpy2 :=
  {| gmpy2_is_prime := fun n _ => trial_division_is_prime n |}.

(** ** prime_checker/utils.py *)

Module utils.

(** [mod_exp]. *)
Definition mod_exp (base exp modulus : Z) : Z := gmpy2.powmod base exp modulus.

(** [is_probably_prime]. *)
Definition is_probably_prime `{Gmpy2} (n k : Z) : bool := gmpy2_is_prime n k.

(** [jacobi_symbol]. *)
Definition jacobi_symbol (a n : Z) : Z := gmpy2.jacobi a n.

(** [is_perfect_square]: the flag and the root; [None] where
    [gmpy2.isqrt] raises. *)
Definition is_perfect_square (n : Z) : option (bool * Z) :=
  match gmpy2.isqrt n with
  | None => None
  | Some sqrt_n => Some (sqrt_n * sqrt_n =? n, sqrt_n)
  end.

(** [generate_mersenne_candidate]. *)
Definition generate_mersenne_candidate (p : Z) : Z := 2 ^ p - 1.

(** The [while d % 2 == 0] loop of [decompose_n_minus_1]. *)
Fixpoint decompose_loop (fuel : nat) (s d : Z) : option (Z * Z) :=
  match fuel with
  | O => None
  | S fuel' =>
      if d mod 2 =? 0 then decompose_loop fuel' (s + 1) (d / 2)
      else Some (s, d)
  end.

(** [decompose_n_minus_1].  The loop halves [d] at most [log2 |d|] times
    unless [d = 0], where it never ends. *)
Definition decompose_n_minus_1 (n : Z) : option (Z * Z) :=
  let n_minus_1 := n - 1 in
  decompose_loop (S (Z.to_nat (Z.log2 (Z.abs n_minus_1)))) 0 n_minus_1.

(** The trial divisions of [is_prime_small]: [for i in range(...)] with
    its early [return False]. *)
Fixpoint trial_loop (n : Z) (candidates : list Z) : bool :=
  match candidates with
  | [] => true
  | i :: rest => if n mod i =? 0 then false else trial_loop n rest
  end.

(** [is_prime_small].  [int(n**0.5)] is the integer square root: below
    1000 the floating-point root truncates to it. *)
Definition is_prime_small `{Gmpy2} (n : Z) : bool :=
  if n <? 2 then false
  else if n =? 2 then true
  else if n mod 2 =? 0 then false
  else if n <? 1000 then trial_loop n (Py.range 3 (Z.sqrt n + 1) 2)
  else gmpy2.is_prime n.

(** One attempt of [generate_random_probable_prime]: the candidate drawn,
    made odd. *)
Definition candidate (bits : Z) : M Z :=
  let* r := lift_random (random.getrandbits (bits - 1)) in
  let n := 2 ^ (bits - 1) + r in
  ret (if n mod 2 =? 0 then n + 1 else n).

(** [generate_random_probable_prime]: [fuel] bounds the attempts. *)
Fixpoint generate_random_probable_prime `{Gmpy2} (fuel : nat) (bits : Z) : M Z :=
  match fuel with
  | O => diverge
  | S fuel' =>
      let* n := candidate bits in
      if is_probably_prime n 5 then ret n
      else generate_random_probable_prime fuel' bits
  end.

End utils.

(** ** prime_checker/cpu_algorithms.py *)

Module MillerRabin.

(** The object's fields, as [__init__] sets them. *)
Record t : Type := { rounds : Z; deterministic_bases : list Z }.

Definition init (rounds : Z) : t :=
  {| rounds := rounds;
     deterministic_bases := [2; 3; 5; 7; 11; 13; 17; 19; 23; 29; 31; 37] |}.

(** The [for _ in range(int(s) - 1)] loop of [_witness_test]. *)
Fixpoint squaring_loop (count : nat) (x n : Z) : bool :=
  match count with
  | O => false
  | S count' =>
      let x := utils.mod_exp x 2 n in
      if x =? n - 1 then true
      else if x =? 1 then false
      else squaring_loop count' x n
  end.

(** [_witness_test]: [true] when [a] does not prove [n] composite. *)
Definition _witness_test (a n s d : Z) : bool :=
  let x := utils.mod_exp a d n in
  if (x =? 1) || (x =? n - 1) then true
  else squaring_loop (Z.to_nat (s - 1)) x n.

(** [[random.randrange(2, n - 1) for _ in range(rounds)]]. *)
Fixpoint draw_witnesses (count : nat) (n : Z) : M (list Z) :=
  match count with
  | O => ret []
  | S count' =>
      let* a := lift_random (random.randrange 2 (n - 1)) in
      let* rest := draw_witnesses count' n in
      ret (a :: rest)
  end.

(** The [for a in witnesses] loop of [test], with its early [return False]. *)
Fixpoint witness_loop (witnesses : list Z) (n s d : Z) : bool :=
  match witnesses with
  | [] => true
  | a :: rest =>
      if negb (_witness_test a n s d) then false
      else witness_loop rest n s d
  end.

(** [test]. *)
Definition test `{Gmpy2} (self : t) (n : Z) (use_deterministic : bool) : M bool :=
  if n <=? 1 then ret false
  else if n <=? 3 then ret true
  else if n mod 2 =? 0 then ret false
  else if n <? 2 ^ 64 then ret (utils.is_prime_small n)
  else
    let* sd := lift_option (utils.decompose_n_minus_1 n) in
    let '(s, d) := sd in
    let* witnesses :=
      if use_deterministic && (n <? 3317044064679887385961981)
      then ret (filter (fun a => a <? n) (deterministic_bases self))
      else draw_witnesses (Z.to_nat (rounds self)) n in
    ret (witness_loop witnesses n s d).

End MillerRabin.

Module LucasLehmer.

(** The [for _ in iterator] loop of [test]. *)
Fixpoint iterate (count : nat) (s Mp : Z) : Z :=
  match count with
  | O => s
  | S count' => iterate count' ((s * s - 2) mod Mp) Mp
  end.

(** [test]; the progress bar does not bear on the result. *)
Definition test `{Gmpy2} (p : Z) : bool :=
  if p =? 2 then true
  else if negb (utils.is_prime_small p) then false
  else
    let Mp := 2 ^ p - 1 in
    iterate (Z.to_nat (p - 2)) 4 Mp =? 0.

End LucasLehmer.

Module LucasPrimality.

(** The [while True] loop of [_find_D]: [Some None] is Python's [None]. *)
Fixpoint find_D_loop (fuel : nat) (D n : Z) : option (option Z) :=
  match fuel with
  | O => None
  | S fuel' =>
      if utils.jacobi_symbol D n =? -1 then Some (Some D)
      else
        let D := if 0 <? D then - D - 2 else - D + 2 in
        if n <? Z.abs D then Some None
        else find_D_loop fuel' D n
  end.

(** [_find_D]. *)
Definition _find_D (fuel : nat) (n : Z) : option (option Z) :=
  find_D_loop fuel 5 n.

(** One turn of the [for bit in bin(k)[2:]] loop of
    [_lucas_sequence_test], on the running [(U, V, Qk)]. *)
Definition ladder_step (n D P Q : Z) (st : Z * Z * Z) (bit : bool) : Z * Z * Z :=
  let '(U, V, Qk) := st in
  let U := U * V mod n in
  let V := (V * V - 2 * Qk) mod n in
  let Qk := Qk * Qk mod n in
  if bit then
    ((P * U + V) / 2 mod n, (D * U + P * V) / 2 mod n, Qk * Q mod n)
  else (U, V, Qk).

(** [_lucas_sequence_test]. *)
Definition _lucas_sequence_test (n D : Z) : bool :=
  let P := 1 in
  let Q := (1 - D) / 4 in
  let k := n + 1 in
  let '(U, _, _) := fold_left (ladder_step n D P Q) (Py.bin_digits k) (0, 2, 1) in
  U =? 0.

(** [test]. *)
Definition test (fuel : nat) (n : Z) : option bool :=
  if n <=? 1 then Some false
  else if n =? 2 then Some true
  else if n mod 2 =? 0 then Some false
  else
    match _find_D fuel n with
    | None => None
    | Some None => Some false
    | Some (Some D) => Some (_lucas_sequence_test n D)
    end.

End LucasPrimality.

Module BPSW.

(** The object's fields, as [__init__] sets them; the Lucas tester holds
    no data. *)
Record t : Type := { miller_rabin : MillerRabin.t }.

Definition init : t := {| miller_rabin := MillerRabin.init 1 |}.

(** [test]. *)
Definition test `{Gmpy2} (self : t) (fuel : nat) (n : Z) : M bool :=
  if n <=? 1 then ret false
  else if n =? 2 then ret true
  else if n mod 2 =? 0 then ret false
  else
    let* mr := MillerRabin.test (miller_rabin self) n true in
    if negb mr then ret false
    else lift_option (LucasPrimality.test fuel n).

End BPSW.

(** [is_prime_cpu].  [kwargs] is the dictionary of keyword arguments
    (integer-valued: [rounds] and [p]); [show_progress] only drives the
    progress bar and is left out. *)
Definition is_prime_cpu `{Gmpy2} (fuel : nat) (n : Z) (algorithm : string)
    (kwargs : gmap string Z) : M (Py.outcome bool) :=
  let '(algorithm, kwargs) :=
    if String.eqb algorithm "auto" then
      if (3 <? n) && (Py.bit_count (n + 1) =? 1) then
        let p := Py.bit_length (n + 1) - 1 in
        if utils.is_prime_small p
        then ("lucas-lehmer"%string, <["p"%string := p]> kwargs)
        else (algorithm, kwargs)
      else ("bpsw"%string, kwargs)
    else (algorithm, kwargs) in
  if String.eqb algorithm "miller-rabin" then
    let rounds := default 20 (kwargs !! "rounds"%string) in
    let mr := MillerRabin.init rounds in
    let* b := MillerRabin.test mr n false in
    ret (Py.Return b)
  else if String.eqb algorithm "lucas-lehmer" then
    match kwargs !! "p"%string with
    | None =>
        ret (Py.Raise (Py.ValueError "Lucas-Lehmer requires exponent p for testing 2^p - 1"))
    | Some p => ret (Py.Return (LucasLehmer.test p))
    end
  else if String.eqb algorithm "bpsw" then
    let bpsw := BPSW.init in
    let* b := BPSW.test bpsw fuel n in
    ret (Py.Return b)
  else
    ret (Py.Raise (Py.ValueError ("Unknown algorithm: " ++ algorithm))).

(** ** prime_checker/gpu_algorithms.py

    Of the GPU testers, the conversion to base 2^32 and the Lucas-Lehmer
    tester, whose kernel works on [unsigned long long]. *)

Module GPUPrimalityTest.

(** The [while n_int > 0] loop of [_to_gpu_format]; [digits.append]
    adds at the end of the list. *)
Fixpoint to_gpu_loop (fuel : nat) (n_int : Z) (digits : list Z)
  : option (list Z) :=
  match fuel with
  | O => None
  | S fuel' =>
      if 0 <? n_int
      then to_gpu_loop fuel' (n_int / 2 ^ 32) (digits ++ [n_int mod 2 ^ 32])
      else Some digits
  end.

(** [_to_gpu_format]: the digits, which the source stores as an array
    of [uint32], and their number. *)
Definition _to_gpu_format (fuel : nat) (n : Z) : option (list Z * Z) :=
  match to_gpu_loop fuel n [] with
  | None => None
  | Some digits => Some (digits, Z.of_nat (length digits))
  end.

End GPUPrimalityTest.

Module LucasLehmerGPU.

(** Arithmetic on [unsigned long long] wraps modulo 2^64. *)
Definition u64 (x : Z) : Z := x mod 2 ^ 64.

(** The loop of the CUDA kernel, [si = ((si * si) - 2) % modulus]. *)
Fixpoint kernel_loop (iterations : nat) (si modulus : Z) : Z :=
  match iterations with
  | O => si
  | S i => kernel_loop i (u64 (u64 (si * si) - 2) mod modulus) modulus
  end.

(** The kernel [lucas_lehmer_iteration]: [i < iterations] fails at once
    for [iterations <= 0].  [iterations] is a C [int]; the properties
    below keep it within 32 bits. *)
Definition lucas_lehmer_iteration (s Mp iterations : Z) : Z :=
  kernel_loop (Z.to_nat iterations) s Mp.

(** The [while iterations_done < total_iterations] loop of [test]. *)
Fixpoint batch_loop (fuel : nat)
  (batch_size total_iterations iterations_done s_gpu Mp_gpu : Z) : option Z :=
  match fuel with
  | O => None
  | S fuel' =>
      if iterations_done <? total_iterations then
        let batch_iterations :=
          Z.min batch_size (total_iterations - iterations_done) in
        batch_loop fuel' batch_size total_iterations
          (iterations_done + batch_iterations)
          (lucas_lehmer_iteration s_gpu Mp_gpu batch_iterations) Mp_gpu
      else Some s_gpu
  end.

(** [test], on an object that could be built (a GPU is present); the
    progress bar of the CPU fallback does not bear on the result. *)
Definition test `{Gmpy2} (fuel : nat) (p batch_size : Z) : option bool :=
  if p =? 2 then Some true
  else if negb (utils.is_prime_small p) then Some false
  else if p >? 10000 then Some (LucasLehmer.test p)
  else
    let Mp := 2 ^ p - 1 in
    if Mp >? 2 ^ 63 then Some (LucasLehmer.test p)
    else
      match batch_loop fuel batch_size (p - 2) 0 4 Mp with
      | None => None
      | Some result => Some (result =? 0)
      end.

End LucasLehmerGPU.

(** ** The specification's words

    Definitions that follow the specification, to compare the program with. *)

Module Spec.

(** [U_k] of the Lucas sequence with parameters [P] and [Q]:
    [U_0 = 0], [U_1 = 1], [U_(k+2) = P * U_(k+1) - Q * U_k]. *)
Fixpoint lucas_pair (P Q : Z) (k : nat) : Z * Z :=
  match k with
  | O => (0, 1)
  | S k' => let '(u0, u1) := lucas_pair P Q k' in (u1, P * u1 - Q * u0)
  end.

Definition lucas_U (P Q : Z) (k : nat) : Z := fst (lucas_pair P Q k).

(** One round of Miller-Rabin with the single base 2. *)
Definition miller_rabin_base_2 (n : Z) : option bool :=
  match utils.decompose_n_minus_1 n with
  | Some (s, d) => Some (MillerRabin._witness_test 2 n s d)
  | None => None
  end.

(** The composition section 4.4 of the specification describes. *)
Definition bpsw_composition (fuel : nat) (n : Z) : option bool :=
  if (n <=? 1) || ((2 <? n) && (n mod 2 =? 0)) then Some false
  else if n =? 2 then Some true
  else
    match miller_rabin_base_2 n with
    | None => None
    | Some false => Some false
    | Some true => LucasPrimality.test fuel n
    end.

(** A candidate is recognizably of Mersenne form (section 3): it is above
    3 and its successor has exactly one set bit. *)
Definition mersenne_form (n : Z) : bool :=
  (3 <? n) && (Py.bit_count (n + 1) =? 1).

End Spec.

(** ** Inputs on which the program is run below *)

(** The product of the primes [2^61 - 1] and [575 * 2^61 + 1]. *)
Definition composite_passing_lucas : Z :=
  3057224390305306506355202351356132196351.

(** A base to which [composite_passing_lucas] is a strong probable prime:
    it is 1 modulo the first factor and of order 5 modulo the second. *)
Definition strong_liar : Z := 493766870936551864685021424118253890129.

(** ** Mathematical notions the properties are stated with *)

Module Math.

(** The Lucas-Lehmer sequence over the integers: [S_0 = 4],
    [S_(k+1) = S_k^2 - 2]. *)
Fixpoint lucas_lehmer_S (k : nat) : Z :=
  match k with
  | O => 4
  | S k' => lucas_lehmer_S k' * lucas_lehmer_S k' - 2
  end.

(** [V_k] of the Lucas sequence with parameters [P] and [Q]:
    [V_0 = 2], [V_1 = P], [V_(k+2) = P * V_(k+1) - Q * V_k]. *)
Fixpoint lucas_V_pair (P Q : Z) (k : nat) : Z * Z :=
  match k with
  | O => (2, P)
  | S k' => let '(v0, v1) := lucas_V_pair P Q k' in (v1, P * v1 - Q * v0)
  end.

Definition lucas_V (P Q : Z) (k : nat) : Z := fst (lucas_V_pair P Q k).

(** The number a list of base-2^32 digits stands for, least significant
    digit first. *)
Fixpoint digits_value (digits : list Z) : Z :=
  match digits with
  | [] => 0
  | d :: rest => d + 2 ^ 32 * digits_value rest
  end.

End Math.

(** What the ladder of [_lucas_sequence_test] keeps after the bits of
    [k]: [U] and [V] reduced, the third component [Q^k mod n]. *)
Definition ladder_inv (n Q k : Z) (st : Z * Z * Z) : Prop :=
  let '(U, V, Qk) := st in
  0 <= U < n /\ 0 <= V < n /\ Qk = Q ^ k mod n.

(** * Properties *)

(** ** The Decomposer *)

Section Decomposer.

Import utils.

(** The halving loop, started on a non-zero [d] with fuel above
    [log2 |d|], ends on the odd part of [d] and has counted the halvings. *)
Lemma decompose_loop_spec (fuel : nat) :
  forall s d : Z,
    d <> 0 -> Z.log2 (Z.abs d) < Z.of_nat fuel ->
    exists s' d' : Z,
      decompose_loop fuel s d = Some (s', d') /\
      s <= s' /\ d' mod 2 = 1 /\ 2 ^ (s' - s) * d' = d /\
      (s' = s <-> d mod 2 = 1).
Proof.
  induction fuel as [|fuel IH]; intros s d Hd Hfuel.
  - pose proof (Z.log2_nonneg (Z.abs d)). lia.
  - cbn [decompose_loop].
    destruct (Z.eqb_spec (d mod 2) 0) as [Heven|Hodd].
    + assert (Hd2 : d = 2 * (d / 2)).
      { pose proof (Z.div_mod d 2). lia. }
      assert (Hnz : d / 2 <> 0) by lia.
      assert (Hlog : Z.log2 (Z.abs d) = Z.succ (Z.log2 (Z.abs (d / 2)))).
      { rewrite Hd2 at 1. rewrite Z.abs_mul. change (Z.abs 2) with 2.
        apply Z.log2_double. lia. }
      destruct (IH (s + 1) (d / 2) Hnz ltac:(lia))
        as (s' & d' & Hrun & Hle & Hodd' & Hpow & _).
      exists s', d'. repeat split; try assumption; try lia.
      * replace (s' - s) with (Z.succ (s' - (s + 1))) by lia.
        rewrite Z.pow_succ_r by lia. lia.
    + assert (Hone : d mod 2 = 1).
      { pose proof (Z.mod_pos_bound d 2). lia. }
      exists s, d. rewrite Z.sub_diag. repeat split; try assumption; lia.
Qed.

(** More fuel does not change what the loop returns. *)
Lemma decompose_loop_fuel_mono (fuel : nat) :
  forall (s d : Z) (r : Z * Z),
    decompose_loop fuel s d = Some r ->
    forall fuel' : nat, (fuel <= fuel')%nat -> decompose_loop fuel' s d = Some r.
Proof.
  induction fuel as [|fuel IH]; intros s d r Hrun fuel' Hle; [discriminate|].
  destruct fuel' as [|fuel']; [lia|].
  cbn [decompose_loop] in *.
  destruct (d mod 2 =? 0); [|assumption].
  apply IH with (1 := Hrun). lia.
Qed.

(** On [d = 0], that is [n = 1], the loop never ends. *)
Lemma decompose_loop_zero (fuel : nat) :
  forall s : Z, decompose_loop fuel s 0 = None.
Proof.
  induction fuel as [|fuel IH]; intros s; [reflexivity|].
  cbn [decompose_loop]. change (0 mod 2 =? 0) with true. cbn. apply IH.
Qed.

Lemma decompose_n_minus_1_spec (n : Z) :
  n <> 1 ->
  exists s d : Z,
    decompose_n_minus_1 n = Some (s, d) /\
    0 <= s /\ d mod 2 = 1 /\ 2 ^ s * d = n - 1 /\
    (s = 0 <-> n mod 2 = 0).
Proof.
  intros Hn. unfold decompose_n_minus_1.
  destruct (decompose_loop_spec
              (S (Z.to_nat (Z.log2 (Z.abs (n - 1))))) 0 (n - 1))
    as (s & d & Hrun & Hle & Hodd & Hpow & Hzero).
  - lia.
  - pose proof (Z.log2_nonneg (Z.abs (n - 1))). lia.
  - exists s, d. rewrite Z.sub_0_r in Hpow.
    repeat split; try assumption.
    + intros Hs. apply Hzero in Hs.
      pose proof (Z.mod_pos_bound n 2).
      pose proof (Z.div_mod n 2). pose proof (Z.div_mod (n - 1) 2). lia.
    + intros Heven. apply Hzero.
      pose proof (Z.mod_pos_bound (n - 1) 2).
      pose proof (Z.div_mod n 2). pose proof (Z.div_mod (n - 1) 2). lia.
Qed.

(** C5.  For every integer [n > 1] the Decomposer returns a pair [(s, d)]
    with [s >= 0], [d] odd and [2^s * d = n - 1] exactly. *)
Theorem decompose_n_minus_1_round_trip (n : Z) :
  1 < n ->
  exists s d : Z,
    decompose_n_minus_1 n = Some (s, d) /\
    0 <= s /\ Z.odd d = true /\ 2 ^ s * d = n - 1.
Proof.
  intros Hn.
  destruct (decompose_n_minus_1_spec n) as (s & d & Hrun & Hs & Hodd & Hpow & _).
  - lia.
  - exists s, d. repeat split; try assumption.
    rewrite Zodd_mod, Hodd. reflexivity.
Qed.

Lemma decompose_n_minus_1_round_trip_witness :
  exists s d : Z,
    decompose_n_minus_1 101 = Some (s, d) /\
    0 <= s /\ Z.odd d = true /\ 2 ^ s * d = 101 - 1.
Proof. apply (decompose_n_minus_1_round_trip 101). lia. Defined.

(** C6, as the spec has it, fails: [s = 0] for the even candidate 4, which
    is above 1 and is not 2. *)
Lemma decompose_s_zero_at_4 :
  decompose_n_minus_1 4 = Some (0, 3) /\ (1 <? 4) = true /\ (4 =? 2) = false.
Proof. repeat split. Qed.

(** C6, amended.  For every integer [n > 1] the Decomposer returns [s = 0]
    exactly when [n] is even; for every odd [n > 2] the returned [s] is
    non-zero. *)
Theorem decompose_s_zero_iff_even (n : Z) :
  1 < n ->
  exists s d : Z,
    decompose_n_minus_1 n = Some (s, d) /\
    (s = 0 <-> Z.even n = true) /\
    (Z.odd n = true -> 2 < n -> 0 < s).
Proof.
  intros Hn.
  destruct (decompose_n_minus_1_spec n) as (s & d & Hrun & Hs & _ & _ & Hzero).
  - lia.
  - exists s, d. split; [assumption|].
    rewrite Zeven_mod, Zodd_mod. split.
    + rewrite Hzero. rewrite Z.eqb_eq. reflexivity.
    + intros Hodd _. destruct (Z.eqb_spec (n mod 2) 1) as [E|E]; [|discriminate].
      assert (s <> 0) by (rewrite Hzero; lia). lia.
Qed.

Lemma decompose_s_zero_iff_even_witness :
  exists s d : Z,
    decompose_n_minus_1 25 = Some (s, d) /\
    (s = 0 <-> Z.even 25 = true) /\
    (Z.odd 25 = true -> 2 < 25 -> 0 < s).
Proof. apply (decompose_s_zero_iff_even 25). lia. Defined.

End Decomposer.

(** ** The Miller-Rabin witness test *)

Section MillerRabinWitness.

Import MillerRabin.

Lemma mod_exp_spec (a e n : Z) :
  n <> 0 -> utils.mod_exp a e n = a ^ e mod n.
Proof. intros Hn. apply Zpow_mod_correct. assumption. Qed.

(** Squaring a residue doubles the exponent it stands for. *)
Lemma mod_exp_square (a e n : Z) :
  0 < n -> 0 <= e ->
  utils.mod_exp (a ^ e mod n) 2 n = a ^ (2 * e) mod n.
Proof.
  intros Hn He. rewrite mod_exp_spec by lia.
  rewrite <- Zpower_mod by lia.
  rewrite <- Z.pow_mul_r by lia. f_equal. f_equal. lia.
Qed.

(** Once a power of [a] is 1 modulo [n], all its further squarings are. *)
Lemma pow_one_stays_one (a e n j : Z) :
  1 < n -> 0 <= e -> 0 <= j ->
  a ^ e mod n = 1 -> a ^ (2 ^ j * e) mod n = 1.
Proof.
  intros Hn He Hj Hone.
  rewrite Z.mul_comm, Z.pow_mul_r by auto with zarith.
  rewrite Zpower_mod by lia. rewrite Hone.
  rewrite Z.pow_1_l by auto with zarith. apply Z.mod_1_l. lia.
Qed.

Lemma squaring_loop_spec (a n : Z) (count : nat) :
  2 < n ->
  forall e : Z, 0 <= e ->
    squaring_loop count (a ^ e mod n) n = true <->
    exists j : Z, 1 <= j <= Z.of_nat count /\ a ^ (2 ^ j * e) mod n = n - 1.
Proof.
  intros Hn. induction count as [|count IH]; intros e He.
  - cbn. split; [discriminate|]. intros (j & Hj & _). lia.
  - cbn [squaring_loop]. rewrite mod_exp_square by lia.
    destruct (Z.eqb_spec (a ^ (2 * e) mod n) (n - 1)) as [Hminus|Hminus].
    + split; [intros _|reflexivity].
      exists 1. split; [lia|]. exact Hminus.
    + destruct (Z.eqb_spec (a ^ (2 * e) mod n) 1) as [Hone|Hone].
      * split; [discriminate|]. intros (j & Hj & Hpow). exfalso.
        replace (2 ^ j * e) with (2 ^ (j - 1) * (2 * e)) in Hpow.
        -- rewrite pow_one_stays_one in Hpow by (assumption || lia). lia.
        -- replace j with (Z.succ (j - 1)) at 2 by lia.
           rewrite Z.pow_succ_r by lia. ring.
      * rewrite (IH (2 * e)) by lia. split.
        -- intros (j & Hj & Hpow). exists (j + 1). split; [lia|].
           rewrite Z.pow_add_r by lia. rewrite <- Hpow. f_equal. f_equal. ring.
        -- intros (j & Hj & Hpow).
           assert (j <> 1).
           { intros ->. apply Hminus. rewrite <- Hpow. f_equal. }
           exists (j - 1). split; [lia|].
           rewrite <- Hpow. f_equal. f_equal.
           replace j with (Z.succ (j - 1)) at 2 by lia.
           rewrite Z.pow_succ_r by lia. ring.
Qed.

(** [_witness_test] decides the strong-probable-prime condition. *)
Lemma witness_test_spec (a n s d : Z) :
  2 < n -> 0 <= d -> 1 <= s ->
  _witness_test a n s d = true <->
  (a ^ d mod n = 1 \/
   exists r : Z, 0 <= r < s /\ a ^ (2 ^ r * d) mod n = n - 1).
Proof.
  intros Hn Hd Hs. unfold _witness_test.
  rewrite mod_exp_spec by lia.
  destruct (Z.eqb_spec (a ^ d mod n) 1) as [Hone|Hone]; cbn [orb].
  { split; [intros _; left; assumption|reflexivity]. }
  destruct (Z.eqb_spec (a ^ d mod n) (n - 1)) as [Hminus|Hminus].
  { split; [intros _|reflexivity]. right. exists 0. split; [lia|].
    rewrite Z.pow_0_r, Z.mul_1_l. assumption. }
  rewrite squaring_loop_spec by lia. split.
  - intros (j & Hj & Hpow). right. exists j. split; [lia|assumption].
  - intros [Hone'|(r & Hr & Hpow)]; [contradiction|].
    assert (r <> 0).
    { intros ->. rewrite Z.pow_0_r, Z.mul_1_l in Hpow. contradiction. }
    exists r. split; [lia|assumption].
Qed.

(** Modulo a prime, the only square roots of 1 are 1 and -1. *)
Lemma sqrt_one_mod_prime (p y : Z) :
  Z.prime p -> (y * y) mod p = 1 -> y mod p = 1 \/ y mod p = p - 1.
Proof.
  intros Hp Hsq. pose proof (Z.prime_ge_2 p Hp) as Hge.
  apply Zmod_divide_minus in Hsq; [|lia].
  replace (y * y - 1) with ((y - 1) * (y + 1)) in Hsq by ring.
  apply Z.divide_prime_mul in Hsq; [|assumption].
  destruct Hsq as [[k Hk]|[k Hk]].
  - left. replace y with (1 + k * p) by lia.
    rewrite Z_mod_plus_full. apply Z.mod_1_l. lia.
  - right. replace y with (p - 1 + (k - 1) * p) by lia.
    rewrite Z_mod_plus_full. apply Z.mod_small. lia.
Qed.

(** Modulo a prime, a chain of squarings that ends on 1 starts on 1 or
    passes through -1. *)
Lemma strong_chain_prime (a n d : Z) (i : nat) :
  Z.prime n -> 0 <= d ->
  a ^ (2 ^ Z.of_nat i * d) mod n = 1 ->
  a ^ d mod n = 1 \/
  exists r : Z, 0 <= r < Z.of_nat i /\ a ^ (2 ^ r * d) mod n = n - 1.
Proof.
  intros Hp Hd. pose proof (Z.prime_ge_2 n Hp) as Hge.
  induction i as [|i IH]; intros Hone.
  - left. rewrite Z.pow_0_r, Z.mul_1_l in Hone. assumption.
  - rewrite Nat2Z.inj_succ, Z.pow_succ_r in Hone by lia.
    replace (2 * 2 ^ Z.of_nat i * d) with (2 ^ Z.of_nat i * d * 2) in Hone by ring.
    rewrite Z.pow_mul_r, Z.pow_2_r in Hone by (try apply Z.mul_nonneg_nonneg; auto with zarith).
    destruct (sqrt_one_mod_prime n _ Hp Hone) as [H1|H1].
    + destruct (IH H1) as [Hd1|(r & Hr & Hpow)]; [left; assumption|].
      right. exists r. split; [lia|assumption].
    + right. exists (Z.of_nat i). split; [lia|assumption].
Qed.

(** A prime is a strong probable prime to every base it does not divide:
    a base that fails [_witness_test] proves [n] composite. *)
Lemma witness_test_prime (a n s d : Z) :
  Z.prime n -> 0 <= d -> 1 <= s -> 2 ^ s * d = n - 1 -> 0 < a < n ->
  _witness_test a n s d = true.
Proof.
  intros Hp Hd Hs Hdec Ha. pose proof (Z.prime_ge_2 n Hp) as Hge.
  assert (Hn : 2 < n).
  { assert (n <> 2); [|lia]. intros ->.
    assert (2 ^ s * d = 2 ^ 1 * (2 ^ (s - 1) * d)).
    { replace s with (Z.succ (s - 1)) at 1 by lia.
      rewrite Z.pow_succ_r by lia. ring. }
    lia. }
  apply witness_test_spec; [lia..|].
  assert (Hfermat : a ^ (n - 1) mod n = 1).
  { apply Z.fermat_nz; [assumption|].
    rewrite Z.mod_small by lia. lia. }
  rewrite <- Hdec in Hfermat.
  rewrite <- (Z2Nat.id s) in Hfermat by lia.
  destruct (strong_chain_prime a n d (Z.to_nat s) Hp Hd Hfermat)
    as [H1|(r & Hr & Hpow)]; [left; assumption|].
  right. exists r. split; [lia|assumption].
Qed.


Context `{Gmpy2}.




End MillerRabinWitness.


(** The sixth Fermat number [2^64 + 1] is composite: base 2 does not show
    it, base 3 does, and the overall test answers [False] in both modes. *)
Example miller_rabin_short_circuit_fermat_6 :
  MillerRabin._witness_test 3 18446744073709551617 64 1 = false /\
  MillerRabin._witness_test 2 18446744073709551617 64 1 = true /\
  result_of (MillerRabin.test (H := reference_gmpy2) (MillerRabin.init 20)
               18446744073709551617 true (random.of_list []))
  = Some false /\
  result_of (MillerRabin.test (H := reference_gmpy2) (MillerRabin.init 2)
               18446744073709551617 false (random.of_list [0; 1]))
  = Some false.
Proof. vm_compute. repeat split; reflexivity. Qed.

(** ** Miller-Rabin below 2^64 *)

Section MillerRabinSmall.

Context `{Gmpy2}.

(** Below 2^64 the tester returns what [is_prime_small] answers and
    leaves the random source alone. *)
Lemma miller_rabin_small (self : MillerRabin.t) (n : Z) (det : bool)
    (st : random.state) :
  n < 2 ^ 64 ->
  MillerRabin.test self n det st = Some (utils.is_prime_small n, st).
Proof.
  intros Hn. unfold MillerRabin.test, utils.is_prime_small.
  destruct (Z.leb_spec n 1) as [H1|H1].
  { destruct (Z.ltb_spec n 2); [reflexivity|lia]. }
  destruct (Z.ltb_spec n 2); [lia|].
  destruct (Z.leb_spec n 3) as [H3|H3].
  { assert (Hcases : n = 2 \/ n = 3) by lia.
    destruct Hcases as [-> | ->]; reflexivity. }
  destruct (Z.eqb_spec n 2); [lia|].
  destruct (Z.eqb_spec (n mod 2) 0); [reflexivity|].
  destruct (Z.ltb_spec n (2 ^ 64)); [reflexivity|lia].
Qed.

(** C10.  For every [n] with [0 <= n < 2^64] the Miller-Rabin tester's
    result does not depend on the rounds parameter nor on the
    [use_deterministic] flag: any two runs return the same result, the
    answer of the small-integer primality check for [n]. *)
Theorem miller_rabin_small_independent_of_options (n : Z) :
  0 <= n < 2 ^ 64 ->
  forall (rounds1 rounds2 : Z) (det1 det2 : bool) (st1 st2 : random.state),
    result_of (MillerRabin.test (MillerRabin.init rounds1) n det1 st1)
    = result_of (MillerRabin.test (MillerRabin.init rounds2) n det2 st2) /\
    result_of (MillerRabin.test (MillerRabin.init rounds1) n det1 st1)
    = Some (utils.is_prime_small n).
Proof.
  intros [_ Hn] rounds1 rounds2 det1 det2 st1 st2.
  rewrite !miller_rabin_small by assumption. split; reflexivity.
Qed.

End MillerRabinSmall.

Lemma miller_rabin_small_independent_of_options_witness :
  result_of (MillerRabin.test (H := reference_gmpy2) (MillerRabin.init 5) 97 false
               (random.of_list [1]))
  = result_of (MillerRabin.test (H := reference_gmpy2) (MillerRabin.init 20) 97 true
                 (random.of_list [2])) /\
  result_of (MillerRabin.test (H := reference_gmpy2) (MillerRabin.init 5) 97 false
               (random.of_list [1]))
  = Some (utils.is_prime_small (H := reference_gmpy2) 97).
Proof.
  apply (miller_rabin_small_independent_of_options (H := reference_gmpy2) 97).
  lia.
Defined.

(** ** The random prime generator *)

Section Generator.

Context `{Gmpy2}.

Import utils.

(** A candidate of [bits >= 2] bits is odd and has exactly [bits] bits. *)
Lemma candidate_spec (bits : Z) (st : random.state) :
  2 <= bits ->
  exists (n : Z) (st' : random.state),
    candidate bits st = Some (n, st') /\
    Z.odd n = true /\ 2 ^ (bits - 1) <= n < 2 ^ bits.
Proof.
  intros Hbits. unfold candidate, bind, lift_random, ret.
  unfold random.getrandbits, random.next.
  set (r := st O mod 2 ^ (bits - 1)).
  assert (Hpow : 0 < 2 ^ (bits - 1)) by (apply Z.pow_pos_nonneg; lia).
  assert (Hr : 0 <= r < 2 ^ (bits - 1)) by (apply Z.mod_pos_bound; assumption).
  assert (Hdouble : 2 ^ bits = 2 * 2 ^ (bits - 1)).
  { replace bits with (Z.succ (bits - 1)) at 1 by lia.
    apply Z.pow_succ_r. lia. }
  eexists. eexists. split; [reflexivity|].
  destruct (Z.eqb_spec ((2 ^ (bits - 1) + r) mod 2) 0) as [Heven|Hodd].
  - pose proof (Z.div_mod (2 ^ (bits - 1) + r) 2 ltac:(lia)) as Hdm.
    split.
    + rewrite Zodd_mod, <- Z.add_mod_idemp_l, Heven by lia. reflexivity.
    + lia.
  - pose proof (Z.mod_pos_bound (2 ^ (bits - 1) + r) 2 ltac:(lia)).
    split; [|lia].
    rewrite Zodd_mod. apply Z.eqb_eq. lia.
Qed.

Lemma bit_length_of_range (bits n : Z) :
  1 <= bits -> 2 ^ (bits - 1) <= n < 2 ^ bits ->
  Py.bit_length n = bits /\ Z.testbit n (bits - 1) = true.
Proof.
  intros Hbits Hn.
  assert (Hpos : 0 < n).
  { pose proof (Z.pow_pos_nonneg 2 (bits - 1) ltac:(lia) ltac:(lia)). lia. }
  assert (Hlog : Z.log2 n = bits - 1).
  { apply Z.log2_unique; [lia|]. replace (Z.succ (bits - 1)) with bits by lia.
    assumption. }
  split.
  - unfold Py.bit_length. destruct (Z.eqb_spec n 0); [lia|].
    rewrite Z.abs_eq by lia. lia.
  - rewrite <- Hlog. apply Z.bit_log2. assumption.
Qed.

(** The generator returns the first candidate that passes the check. *)
Lemma generate_first_pass (fuel : nat) (bits n : Z) (st st' : random.state) :
  candidate bits st = Some (n, st') -> is_probably_prime n 5 = true ->
  generate_random_probable_prime (S fuel) bits st = Some (n, st').
Proof.
  intros Hc Hp. cbn [generate_random_probable_prime]. unfold bind.
  rewrite Hc, Hp. reflexivity.
Qed.

(** Whatever the generator returns is an odd integer of exactly [bits]
    bits that passes the check. *)
Lemma generate_result_spec (fuel : nat) (bits n : Z)
    (st st' : random.state) :
  2 <= bits ->
  generate_random_probable_prime fuel bits st = Some (n, st') ->
  Z.odd n = true /\ Py.bit_length n = bits /\
  Z.testbit n (bits - 1) = true /\ is_probably_prime n 5 = true.
Proof.
  intros Hbits. revert st.
  induction fuel as [|fuel IH]; intros st Hrun; [discriminate|].
  cbn [generate_random_probable_prime] in Hrun. unfold bind in Hrun.
  destruct (candidate_spec bits st Hbits) as (c & st1 & Hc & Hodd & Hrange).
  rewrite Hc in Hrun.
  destruct (is_probably_prime c 5) eqn:Hp.
  - injection Hrun as -> ->.
    destruct (bit_length_of_range bits n ltac:(lia) Hrange) as [Hlen Htop].
    repeat split; assumption.
  - apply IH with (1 := Hrun).
Qed.

(** A candidate takes one draw. *)
Lemma candidate_one_draw (bits : Z) (st : random.state) :
  exists c : Z, candidate bits st = Some (c, random.skip 1 st).
Proof.
  unfold candidate, bind, lift_random, ret, random.getrandbits, random.next.
  eexists. reflexivity.
Qed.

(** Once the generator has returned, more fuel changes nothing. *)
Lemma generate_fuel_mono (bits : Z) (fuel : nat) :
  forall (st : random.state) (r : Z * random.state) (more : nat),
    generate_random_probable_prime fuel bits st = Some r ->
    generate_random_probable_prime (fuel + more) bits st = Some r.
Proof.
  induction fuel as [|fuel IH]; intros st r more Hrun; [discriminate|].
  cbn [Nat.add generate_random_probable_prime] in *. unfold bind in *.
  destruct (candidate bits st) as [[c st1]|]; [|discriminate].
  destruct (is_probably_prime c 5); [assumption|].
  apply IH. assumption.
Qed.

(** If the candidate of the turn [k] passes the check, the generator
    returns within [k + 1] turns. *)
Lemma generate_returns (bits : Z) (k : nat) :
  forall (st : random.state) (c : Z) (st1 : random.state),
    candidate bits (random.skip k st) = Some (c, st1) ->
    is_probably_prime c 5 = true ->
    exists (n : Z) (st' : random.state),
      generate_random_probable_prime (S k) bits st = Some (n, st').
Proof.
  induction k as [|k IH]; intros st c st1 Hc Hp.
  - exists c, st1. apply generate_first_pass; assumption.
  - cbn [generate_random_probable_prime]. unfold bind.
    destruct (candidate_one_draw bits st) as (c0 & Hc0). rewrite Hc0.
    destruct (is_probably_prime c0 5); [eexists; eexists; reflexivity|].
    apply (IH (random.skip 1 st) c st1); assumption.
Qed.

(** C9.  For every requested bit length [b >= 2] and every sequence of
    random draws on which the loop ends (the candidate of some turn passes
    the check), the generator returns: from some number of turns on, and
    whatever the bound on the turns, its result is one and the same odd
    integer, whose bit length is exactly [b], top bit set, and which
    passes the probabilistic check the generator uses. *)
Theorem generate_random_probable_prime_spec (bits : Z) (st : random.state) :
  2 <= bits ->
  (exists (k : nat) (c : Z) (st1 : random.state),
     candidate bits (random.skip k st) = Some (c, st1) /\
     is_probably_prime c 5 = true) ->
  exists (fuel0 : nat) (n : Z) (st' : random.state),
    (forall fuel : nat,
       (fuel0 <= fuel)%nat ->
       generate_random_probable_prime fuel bits st = Some (n, st')) /\
    (forall (fuel : nat) (r : Z * random.state),
       generate_random_probable_prime fuel bits st = Some r -> r = (n, st')) /\
    Z.odd n = true /\ Py.bit_length n = bits /\
    Z.testbit n (bits - 1) = true /\ is_probably_prime n 5 = true.
Proof.
  intros Hbits (k & c & st1 & Hc & Hp).
  destruct (generate_returns bits k st c st1 Hc Hp) as (n & st' & Hrun).
  exists (S k), n, st'.
  assert (Hmore : forall fuel : nat,
            (S k <= fuel)%nat ->
            generate_random_probable_prime fuel bits st = Some (n, st')).
  { intros fuel Hfuel. replace fuel with (S k + (fuel - S k))%nat by lia.
    apply generate_fuel_mono. assumption. }
  split; [assumption|]. split.
  - intros fuel r Hr.
    pose proof (generate_fuel_mono bits fuel st r (S k) Hr) as H1.
    rewrite (Hmore (fuel + S k)%nat ltac:(lia)) in H1. congruence.
  - apply (generate_result_spec (S k) bits n st st'); assumption.
Qed.

End Generator.

Lemma generate_random_probable_prime_spec_witness :
  exists (fuel0 : nat) (n : Z) (st' : random.state),
    (forall fuel : nat,
       (fuel0 <= fuel)%nat ->
       utils.generate_random_probable_prime (H := reference_gmpy2) fuel 8
         (random.of_list [5; 3]) = Some (n, st')) /\
    (forall (fuel : nat) (r : Z * random.state),
       utils.generate_random_probable_prime (H := reference_gmpy2) fuel 8
         (random.of_list [5; 3]) = Some r -> r = (n, st')) /\
    Z.odd n = true /\ Py.bit_length n = 8 /\
    Z.testbit n (8 - 1) = true /\
    utils.is_probably_prime (H := reference_gmpy2) n 5 = true.
Proof.
  apply (generate_random_probable_prime_spec (H := reference_gmpy2) 8
           (random.of_list [5; 3])); [lia|].
  exists 1%nat, 131, (random.skip 2 (random.of_list [5; 3])).
  split; reflexivity.
Defined.

(** On the draws 5, 3 the first candidate, 133, fails the check and the
    second, 131, is returned; one turn is not enough. *)
Example generate_random_probable_prime_8_bits :
  result_of (utils.generate_random_probable_prime (H := reference_gmpy2) 2 8
               (random.of_list [5; 3])) = Some 131 /\
  result_of (utils.generate_random_probable_prime (H := reference_gmpy2) 1 8
               (random.of_list [5; 3])) = None.
Proof. split; reflexivity. Qed.

(** ** Termination of the testers *)

Section Termination.

Context `{Gmpy2}.

(** The discriminant search ends: [|D|] grows by 2 at every turn and the
    loop gives up once it exceeds [n]. *)
Lemma find_D_loop_terminates (fuel : nat) :
  forall D n : Z,
    (Z.to_nat (n - Z.abs D) < fuel)%nat ->
    exists r : option Z, LucasPrimality.find_D_loop fuel D n = Some r.
Proof.
  induction fuel as [|fuel IH]; intros D n Hfuel; [lia|].
  cbn [LucasPrimality.find_D_loop].
  destruct (utils.jacobi_symbol D n =? -1); [eexists; reflexivity|].
  set (D' := if 0 <? D then - D - 2 else - D + 2).
  assert (Habs : Z.abs D' = Z.abs D + 2).
  { unfold D'. destruct (Z.ltb_spec 0 D); lia. }
  destruct (Z.ltb_spec n (Z.abs D')); [eexists; reflexivity|].
  apply IH. lia.
Qed.

Lemma lucas_test_terminates (fuel : nat) (n : Z) :
  (Z.to_nat n <= fuel)%nat ->
  exists b : bool, LucasPrimality.test fuel n = Some b.
Proof.
  intros Hfuel. unfold LucasPrimality.test, LucasPrimality._find_D.
  destruct (Z.leb_spec n 1); [eexists; reflexivity|].
  destruct (n =? 2); [eexists; reflexivity|].
  destruct (n mod 2 =? 0); [eexists; reflexivity|].
  destruct (find_D_loop_terminates fuel 5 n) as [[D|] ->].
  - change (Z.abs 5) with 5. lia.
  - eexists; reflexivity.
  - eexists; reflexivity.
Qed.

Lemma draw_witnesses_total (count : nat) (n : Z) :
  forall st : random.state,
    exists (ws : list Z) (st' : random.state),
      MillerRabin.draw_witnesses count n st = Some (ws, st').
Proof.
  induction count as [|count IH]; intros st; cbn [MillerRabin.draw_witnesses].
  - eexists; eexists; reflexivity.
  - unfold bind, lift_random.
    destruct (random.randrange 2 (n - 1) st) as [a st1].
    destruct (IH st1) as (ws & st' & ->).
    eexists; eexists; reflexivity.
Qed.

Lemma miller_rabin_terminates (self : MillerRabin.t) (n : Z) (det : bool)
    (st : random.state) :
  exists (b : bool) (st' : random.state),
    MillerRabin.test self n det st = Some (b, st').
Proof.
  unfold MillerRabin.test.
  destruct (Z.leb_spec n 1); [eexists; eexists; reflexivity|].
  destruct (n <=? 3); [eexists; eexists; reflexivity|].
  destruct (n mod 2 =? 0); [eexists; eexists; reflexivity|].
  destruct (n <? 2 ^ 64); [eexists; eexists; reflexivity|].
  destruct (decompose_n_minus_1_spec n ltac:(lia)) as (s & d & Hdec & _).
  unfold bind, lift_option. rewrite Hdec.
  destruct (det && (n <? 3317044064679887385961981)).
  - eexists; eexists; reflexivity.
  - destruct (draw_witnesses_total
                (Z.to_nat (MillerRabin.rounds self)) n st) as (ws & st' & ->).
    eexists; eexists; reflexivity.
Qed.

Lemma bpsw_terminates (self : BPSW.t) (fuel : nat) (n : Z) (st : random.state) :
  (Z.to_nat n <= fuel)%nat ->
  exists (b : bool) (st' : random.state),
    BPSW.test self fuel n st = Some (b, st').
Proof.
  intros Hfuel. unfold BPSW.test.
  destruct (n <=? 1); [eexists; eexists; reflexivity|].
  destruct (n =? 2); [eexists; eexists; reflexivity|].
  destruct (n mod 2 =? 0); [eexists; eexists; reflexivity|].
  unfold bind.
  destruct (miller_rabin_terminates (BPSW.miller_rabin self) n true st)
    as (b & st' & ->).
  destruct b; cbn [negb].
  - destruct (lucas_test_terminates fuel n Hfuel) as [b ->].
    eexists; eexists; reflexivity.
  - eexists; eexists; reflexivity.
Qed.

End Termination.

(** ** The dispatcher *)

Section Dispatcher.

Context `{Gmpy2}.

(** The missed case of the automatic choice: a Mersenne-form candidate
    whose exponent fails the small-integer check keeps the name "auto",
    which no branch handles. *)
Lemma is_prime_cpu_auto_composite_exponent_raises (fuel : nat) (n : Z)
    (kwargs : gmap string Z) (st : random.state) :
  Spec.mersenne_form n = true ->
  utils.is_prime_small (Py.bit_length (n + 1) - 1) = false ->
  is_prime_cpu fuel n "auto" kwargs st
  = Some (Py.Raise (Py.ValueError "Unknown algorithm: auto"), st).
Proof.
  intros Hform Hexp. unfold is_prime_cpu.
  change (String.eqb "auto" "auto") with true. cbv iota.
  fold (Spec.mersenne_form n). rewrite Hform, Hexp. reflexivity.
Qed.

(** C2, on the code: the automatic choice on 15 = 2^4 - 1, whose exponent
    4 is composite, does not reach BPSW; it raises, while BPSW answers
    [False] for 15. *)
Theorem is_prime_cpu_auto_15_raises (fuel : nat) (kwargs : gmap string Z)
    (st : random.state) :
  is_prime_cpu fuel 15 "auto" kwargs st
  = Some (Py.Raise (Py.ValueError "Unknown algorithm: auto"), st) /\
  BPSW.test BPSW.init fuel 15 st = Some (false, st).
Proof. split; reflexivity. Qed.

(** C8, on the code: 127 = 2^7 - 1 is of Mersenne form, yet lucas-lehmer
    requested by name for it without the option [p] raises; the automatic
    choice derives [p = 7] from the same input and answers [True], as does
    the call by name once [p = 7] is passed. *)
Theorem is_prime_cpu_lucas_lehmer_127_raises (fuel : nat) (st : random.state) :
  Spec.mersenne_form 127 = true /\
  is_prime_cpu fuel 127 "lucas-lehmer" ∅ st
  = Some (Py.Raise
            (Py.ValueError "Lucas-Lehmer requires exponent p for testing 2^p - 1"),
          st) /\
  is_prime_cpu fuel 127 "auto" ∅ st = Some (Py.Return true, st) /\
  is_prime_cpu fuel 127 "lucas-lehmer" (<["p"%string := 7]> ∅) st
  = Some (Py.Return true, st).
Proof. repeat split; reflexivity. Qed.

End Dispatcher.

(** ** BPSW *)

Section BPSWComposition.

Context `{Gmpy2}.

(** C1, on the code.  [composite_passing_lucas] is composite and base 2
    proves it so, hence the composition of the specification answers
    [False]; but above the deterministic threshold the Miller-Rabin step of
    [BPSW.test] draws its one witness at random, and on the draw
    [strong_liar] it lets the candidate through to the Lucas step, whose
    ladder accepts it: [BPSW.test] answers [True]. *)
Theorem bpsw_test_differs_from_base_2_composition :
  composite_passing_lucas = (2 ^ 61 - 1) * (575 * 2 ^ 61 + 1) /\
  Spec.miller_rabin_base_2 composite_passing_lucas = Some false /\
  Spec.bpsw_composition 2 composite_passing_lucas = Some false /\
  BPSW.test BPSW.init 2 composite_passing_lucas
    (random.of_list [strong_liar - 2])
  = Some (true, random.of_list []).
Proof. repeat split; vm_compute; reflexivity. Qed.

End BPSWComposition.

(** ** The Lucas ladder *)

(** C3, on the code.  13 is prime, the search accepts [D = 5] (Jacobi
    symbol -1), and [U_14 = 377] of the Lucas sequence with [P = 1],
    [Q = -1] is 0 modulo 13; the ladder reports "not prime".  At the third
    bit the sum [P*U + V = 13] is odd: the floor division leaves 6 where
    the product with the inverse of 2 modulo 13, which is 7, gives 0. *)
Theorem lucas_sequence_test_floor_halving_13 :
  LucasPrimality._find_D 2 13 = Some (Some 5) /\
  utils.jacobi_symbol 5 13 = -1 /\
  Spec.lucas_U 1 ((1 - 5) / 4) 14 mod 13 = 0 /\
  LucasPrimality._lucas_sequence_test 13 5 = false /\
  LucasPrimality.test 2 13 = Some false /\
  fold_left (LucasPrimality.ladder_step 13 5 1 (-1)) [true; true] (0, 2, 1)
  = (2, 4, 12) /\
  LucasPrimality.ladder_step 13 5 1 (-1) (2, 4, 12) true = (6, 9, 12) /\
  (1 * (2 * 4 mod 13) + (4 * 4 - 2 * 12) mod 13) = 13 /\
  (2 * 7) mod 13 = 1 /\ (13 * 7) mod 13 = 0.
Proof. repeat split. Qed.

(** ** Purity of the testers *)

Section Purity.

Context `{Gmpy2}.

(** In deterministic mode below the threshold the witnesses are the fixed
    bases: the run does not touch the random source. *)
Lemma miller_rabin_deterministic_mode (self : MillerRabin.t) (n : Z) :
  n < 3317044064679887385961981 ->
  exists b : bool,
    forall st : random.state, MillerRabin.test self n true st = Some (b, st).
Proof.
  intros Hn. unfold MillerRabin.test.
  destruct (n <=? 1); [eexists; reflexivity|].
  destruct (n <=? 3); [eexists; reflexivity|].
  destruct (n mod 2 =? 0); [eexists; reflexivity|].
  destruct (Z.ltb_spec n (2 ^ 64)); [eexists; reflexivity|].
  destruct (decompose_n_minus_1_spec n ltac:(lia)) as (s & d & Hdec & _).
  unfold bind, lift_option. rewrite Hdec.
  destruct (Z.ltb_spec n 3317044064679887385961981); [|lia].
  cbn [andb]. eexists. reflexivity.
Qed.

(** C7, amended.  The Lucas and Lucas-Lehmer testers are functions of their
    inputs alone.  So is Miller-Rabin below 2^64 and, in deterministic
    mode, below 3317044064679887385961981, and so is BPSW below that
    threshold: two runs return equal results whatever the state of the
    process-wide random source.  Above it Miller-Rabin draws its witnesses
    from that source. *)
Theorem testers_pure_below_threshold (fuel : nat) (n : Z)
    (st1 st2 : random.state) :
  (forall (self : MillerRabin.t) (det : bool),
     n < 2 ^ 64 \/ (det = true /\ n < 3317044064679887385961981) ->
     result_of (MillerRabin.test self n det st1)
     = result_of (MillerRabin.test self n det st2)) /\
  (forall self : BPSW.t,
     n < 3317044064679887385961981 ->
     result_of (BPSW.test self fuel n st1)
     = result_of (BPSW.test self fuel n st2)) /\
  (forall kwargs : gmap string Z,
     result_of (is_prime_cpu fuel n "lucas-lehmer" kwargs st1)
     = result_of (is_prime_cpu fuel n "lucas-lehmer" kwargs st2)) /\
  result_of (lift_option (LucasPrimality.test fuel n) st1)
  = result_of (lift_option (LucasPrimality.test fuel n) st2).
Proof.
  repeat split.
  - intros self det [Hsmall|[-> Hmid]].
    + rewrite !miller_rabin_small by assumption. reflexivity.
    + destruct (miller_rabin_deterministic_mode self n Hmid) as [b Hb].
      rewrite !Hb. reflexivity.
  - intros self Hmid. unfold BPSW.test.
    destruct (n <=? 1); [reflexivity|].
    destruct (n =? 2); [reflexivity|].
    destruct (n mod 2 =? 0); [reflexivity|].
    destruct (miller_rabin_deterministic_mode (BPSW.miller_rabin self) n Hmid)
      as [b Hb].
    unfold bind. rewrite !Hb.
    destruct b; cbn [negb]; [|reflexivity].
    unfold lift_option. destruct (LucasPrimality.test fuel n); reflexivity.
  - intros kwargs. unfold is_prime_cpu. cbn.
    destruct (kwargs !! "p"%string); reflexivity.
  - unfold lift_option. destruct (LucasPrimality.test fuel n); reflexivity.
Qed.

End Purity.

Lemma testers_pure_below_threshold_witness :
  result_of (MillerRabin.test (H := reference_gmpy2) (MillerRabin.init 20)
               318665857834031151167461 true (random.of_list [7]))
  = result_of (MillerRabin.test (H := reference_gmpy2) (MillerRabin.init 20)
                 318665857834031151167461 true (random.of_list [40])).
Proof.
  apply (proj1 (testers_pure_below_threshold (H := reference_gmpy2) 0
                  318665857834031151167461
                  (random.of_list [7]) (random.of_list [40]))).
  right. split; [reflexivity|lia].
Defined.

(** C7, as the spec has it, fails: two invocations of the Miller-Rabin
    tester with the same candidate and options, one after the other in the
    same process, return [True] and then [False]. *)
Lemma miller_rabin_two_invocations_differ :
  result_of
    ((let* first := MillerRabin.test (H := reference_gmpy2) (MillerRabin.init 1)
                      composite_passing_lucas false in
      let* second := MillerRabin.test (H := reference_gmpy2) (MillerRabin.init 1)
                       composite_passing_lucas false in
      ret (first, second))
       (random.of_list [strong_liar - 2; 0]))
  = Some (true, false).
Proof. vm_compute. reflexivity. Qed.

(** ** The model on the inputs of the repository's tests *)

Example jacobi_symbol_known_values :
  map (fun an => utils.jacobi_symbol (fst an) (snd an))
    [(2, 3); (2, 5); (2, 7); (3, 5); (3, 7); (5, 7); (6, 9); (10, 15);
     (1, 3); (1, 9); (1, 15)]
  = [-1; -1; 1; -1; -1; -1; 0; 0; 1; 1; 1].
Proof. reflexivity. Qed.

Example decompose_n_minus_1_test_cases :
  map utils.decompose_n_minus_1 [9; 17; 25; 49; 101; 2]
  = [Some (3, 1); Some (4, 1); Some (3, 3); Some (4, 3); Some (2, 25);
     Some (0, 1)].
Proof. reflexivity. Qed.

Example lucas_lehmer_known_exponents :
  map (LucasLehmer.test (H := reference_gmpy2))
    [2; 3; 5; 7; 13; 17; 19; 31; 11; 23; 29; 4; 6; 9]
  = [true; true; true; true; true; true; true; true; false; false; false;
     false; false; false].
Proof. vm_compute. reflexivity. Qed.

Example is_prime_cpu_auto_127_and_98 :
  result_of (is_prime_cpu (H := reference_gmpy2) 98 127 "auto" ∅
               (random.of_list []))
  = Some (Py.Return true) /\
  result_of (is_prime_cpu (H := reference_gmpy2) 98 98 "auto" ∅
               (random.of_list []))
  = Some (Py.Return false).
Proof. split; reflexivity. Qed.

(** * Further properties of the code *)

(** ** The small-integer primality check *)

Section SmallPrimes.

Context `{Gmpy2}.

(** The members of a range are its start plus multiples of the step. *)
Lemma range_from_In (len : nat) (step x : Z) :
  forall start : Z,
    In x (Py.range_from len start step) <->
    exists j : Z, 0 <= j < Z.of_nat len /\ x = start + j * step.
Proof.
  induction len as [|len IH]; intros start; cbn [Py.range_from In].
  - split; [contradiction|]. intros (j & Hj & _). lia.
  - rewrite IH. split.
    + intros [<-|(j & Hj & ->)].
      * exists 0. lia.
      * exists (j + 1). lia.
    + intros (j & Hj & ->).
      destruct (Z.eq_dec j 0) as [->|Hnz]; [left; lia|].
      right. exists (j - 1). lia.
Qed.

(** [range(3, stop, 2)] holds exactly the odd numbers from 3 below [stop]. *)
Lemma range_3_step_2_In (stop x : Z) :
  In x (Py.range 3 stop 2) <-> 3 <= x < stop /\ x mod 2 = 1.
Proof.
  unfold Py.range. rewrite range_from_In.
  replace (stop - 3 + 2 - 1) with (stop - 2) by lia.
  split.
  - intros (j & Hj & ->).
    assert (0 < (stop - 2) / 2) by lia.
    rewrite Z2Nat.id in Hj by lia.
    split.
    + pose proof (Z.mul_div_le (stop - 2) 2 ltac:(lia)). lia.
    + replace (3 + j * 2) with (1 + (j + 1) * 2) by lia.
      rewrite Z_mod_plus_full. reflexivity.
  - intros [Hx Hodd]. exists ((x - 3) / 2).
    assert (Hbound : (x - 3) / 2 < (stop - 2) / 2 /\ x = 3 + (x - 3) / 2 * 2).
    { Z.to_euclidean_division_equations. lia. }
    destruct Hbound as [Hlt Heq].
    assert (0 <= (x - 3) / 2) by (apply Z.div_pos; lia).
    split; [|assumption].
    rewrite Z2Nat.id by lia. lia.
Qed.

Lemma trial_loop_true (n : Z) (candidates : list Z) :
  utils.trial_loop n candidates = true <->
  forall i : Z, In i candidates -> n mod i <> 0.
Proof.
  induction candidates as [|c rest IH]; cbn [utils.trial_loop In].
  - split; [intros _ i []|reflexivity].
  - destruct (Z.eqb_spec (n mod c) 0) as [Hdiv|Hndiv].
    + split; [discriminate|]. intros Hall. exfalso.
      apply (Hall c); [left; reflexivity|assumption].
    + rewrite IH. split.
      * intros Hall i [<-|Hin]; [assumption|apply Hall; assumption].
      * intros Hall i Hin. apply Hall. right. assumption.
Qed.

(** The trial divisions by the odd numbers up to the square root decide
    the primality of an odd [n >= 3]. *)
Lemma trial_loop_prime (n : Z) :
  3 <= n -> n mod 2 = 1 ->
  utils.trial_loop n (Py.range 3 (Z.sqrt n + 1) 2) = true <-> Z.prime n.
Proof.
  intros Hn Hodd. rewrite trial_loop_true.
  pose proof (Z.sqrt_spec n ltac:(lia)) as Hsqrt.
  pose proof (Z.sqrt_nonneg n) as Hsqrt0.
  split.
  - intros Hall. split; [lia|]. intros m Hm [k Hk].
    assert (Hk1 : 1 < k < n) by nia.
    (* the smaller of the two cofactors is an odd number up to the root *)
    assert (Hsmall : exists a : Z, 1 < a /\ a * a <= n /\ (a | n)).
    { destruct (Z.le_gt_cases m k).
      - exists m. split; [lia|]. split; [|exists k; assumption].
        rewrite Hk. apply Z.mul_le_mono_nonneg_r; lia.
      - exists k. split; [lia|]. split; [|exists m; lia].
        rewrite Hk. apply Z.mul_le_mono_nonneg_l; lia. }
    destruct Hsmall as (a & Ha1 & Hasq & [b Hb]).
    assert (Haodd : a mod 2 = 1).
    { pose proof (Z.mod_pos_bound a 2 ltac:(lia)).
      destruct (Z.eq_dec (a mod 2) 0) as [Heven|]; [|lia].
      exfalso. pose proof (Z.div_mod a 2 ltac:(lia)) as Hdm.
      rewrite Heven in Hdm.
      assert (n mod 2 = 0); [|lia].
      rewrite Hb, Hdm. replace (b * (2 * (a / 2) + 0)) with (b * (a / 2) * 2) by ring.
      apply Z_mod_mult. }
    apply (Hall a).
    + apply range_3_step_2_In. split; [|assumption].
      assert (a <> 2) by (intros ->; vm_compute in Haodd; discriminate).
      assert (a <= Z.sqrt n) by (apply Z.sqrt_le_square; lia). lia.
    + rewrite Hb. apply Z_mod_mult.
  - intros [_ Hprime] i Hin Hdiv.
    apply range_3_step_2_In in Hin. destruct Hin as [Hi _].
    apply (Hprime i).
    + assert (Z.sqrt n < n) by (apply Z.sqrt_lt_lin; lia). lia.
    + apply Z.mod_divide; [lia|assumption].
Qed.

Lemma is_prime_small_below_1000 (n : Z) :
  n < 1000 -> (utils.is_prime_small n = true <-> Z.prime n).
Proof.
  intros Hn. unfold utils.is_prime_small.
  destruct (Z.ltb_spec n 2) as [Hlt|Hge].
  { split; [discriminate|]. intros [H1 _]. lia. }
  destruct (Z.eqb_spec n 2) as [->|Hne].
  { split; [intros _; apply Z.prime_2|reflexivity]. }
  destruct (Z.eqb_spec (n mod 2) 0) as [Heven|Hodd].
  { split; [discriminate|]. intros [_ Hprime]. exfalso.
    apply (Hprime 2); [lia|]. apply Z.mod_divide; [lia|assumption]. }
  destruct (Z.ltb_spec n 1000); [|lia].
  pose proof (Z.mod_pos_bound n 2 ltac:(lia)).
  apply trial_loop_prime; lia.
Qed.

(** X1.  Below 1000 [is_prime_small] is exact, whatever the library
    answers: it returns [True] exactly on the primes. *)
Theorem is_prime_small_exact_below_1000 (n : Z) :
  n < 1000 -> (utils.is_prime_small n = true <-> Z.prime n).
Proof.
  intros Hn. split; intros Hp.
  - apply is_prime_small_below_1000; assumption.
  - apply is_prime_small_below_1000; assumption.
Qed.

End SmallPrimes.

Lemma is_prime_small_exact_below_1000_witness :
  utils.is_prime_small (H := reference_gmpy2) 997 = true <-> Z.prime 997.
Proof.
  apply (is_prime_small_exact_below_1000 (H := reference_gmpy2) 997). lia.
Defined.

(** ** A primality certificate, to run the theorems on a prime above 2^64 *)

Section Proth.

Lemma exists_prime_divisor (m : Z) :
  1 < m -> exists p : Z, Z.prime p /\ (p | m).
Proof.
  induction m as [m IH] using (well_founded_induction (Z.lt_wf 0)).
  intros Hm. destruct (prime_dec m) as [Hp|Hnp].
  - exists m. split; [apply prime_alt; assumption|apply Z.divide_refl].
  - destruct (not_prime_divide m Hm Hnp) as (d & Hd & Hdiv).
    destruct (IH d ltac:(lia) ltac:(lia)) as (p & Hp & Hpd).
    exists p. split; [assumption|]. apply Z.divide_trans with d; assumption.
Qed.

Lemma pow_mul_mod (a b c p : Z) :
  0 < p -> 0 <= b -> 0 <= c ->
  a ^ (b * c) mod p = (a ^ b mod p) ^ c mod p.
Proof.
  intros Hp Hb Hc. rewrite Z.pow_mul_r by assumption.
  apply Zpower_mod. assumption.
Qed.

(** Modulo an odd prime, an element whose order divides both an odd number
    and a power of two is 1. *)
Lemma odd_and_two_power_order (p m : Z) (t : nat) :
  Z.prime p -> 2 < p -> 0 <= m -> m mod 2 = 1 ->
  forall y : Z,
    y ^ m mod p = 1 -> y ^ (2 ^ Z.of_nat t) mod p = 1 -> y mod p = 1.
Proof.
  intros Hp Hp2 Hm Hodd. induction t as [|t IH]; intros y Hym Hyt.
  - rewrite Z.pow_0_r, Z.pow_1_r in Hyt. assumption.
  - assert (Hsq : (y * y) mod p = 1).
    { apply IH.
      - rewrite <- Z.pow_2_r, <- Z.pow_mul_r, (Z.mul_comm 2 m) by lia.
        rewrite pow_mul_mod, Hym by lia.
        rewrite Z.pow_1_l by lia. apply Z.mod_1_l. lia.
      - rewrite <- Z.pow_2_r, <- Z.pow_mul_r by lia.
        rewrite Nat2Z.inj_succ, Z.pow_succ_r in Hyt by lia. assumption. }
    destruct (sqrt_one_mod_prime p y Hp Hsq) as [H1|Hm1]; [assumption|].
    exfalso.
    rewrite Zpower_mod, Hm1 in Hym by lia.
    assert (Hneg : (p - 1) ^ m mod p = p - 1).
    { rewrite Zpower_mod by lia.
      replace ((p - 1) mod p) with ((- (1)) mod p).
      - rewrite <- Zpower_mod by lia.
        rewrite Z.pow_opp_odd.
        + rewrite Z.pow_1_l by lia.
          replace (- (1)) with (p - 1 + (-1) * p) by lia.
          rewrite Z_mod_plus_full. apply Z.mod_small. lia.
        + exists (m / 2). pose proof (Z.div_mod m 2 ltac:(lia)). lia.
      - replace (- (1)) with (p - 1 + (-1) * p) by lia.
        rewrite Z_mod_plus_full. reflexivity. }
    lia.
Qed.

(** Proth's criterion: [k * 2^e + 1] with [k < 2^e] is prime as soon as
    some [a] has [a^((n-1)/2) = -1] modulo it. *)
Lemma proth_prime (k e a : Z) :
  0 < e -> 0 < k < 2 ^ e ->
  a ^ (k * 2 ^ (e - 1)) mod (k * 2 ^ e + 1) = k * 2 ^ e ->
  Z.prime (k * 2 ^ e + 1).
Proof.
  intros He Hk Hcert.
  set (n := k * 2 ^ e + 1) in *.
  assert (H2e : 2 ^ e = 2 * 2 ^ (e - 1)).
  { replace e with (Z.succ (e - 1)) at 1 by lia. apply Z.pow_succ_r. lia. }
  assert (Hpow : 0 < 2 ^ (e - 1)) by (apply Z.pow_pos_nonneg; lia).
  assert (Hfactor : forall p : Z, Z.prime p -> (p | n) -> 2 ^ e < p).
  { intros p Hp [c Hc].
    pose proof (Z.prime_ge_2 p Hp) as Hp2.
    assert (Hpodd : 2 < p).
    { assert (p <> 2); [|lia]. intros ->. unfold n in Hc. lia. }
    (* the certificate, read modulo p *)
    assert (Hcertp : a ^ (k * 2 ^ (e - 1)) mod p = p - 1).
    { pose proof (Z.div_mod (a ^ (k * 2 ^ (e - 1))) n ltac:(unfold n; lia)) as Hdm.
      rewrite Hcert in Hdm. rewrite Hdm.
      replace (k * 2 ^ e) with (n - 1) by (unfold n; lia).
      set (Q := a ^ (k * 2 ^ (e - 1)) / n).
      replace (n * Q + (n - 1)) with (p - 1 + (c * Q + c - 1) * p)
        by (rewrite Hc; ring).
      rewrite Z_mod_plus_full. apply Z.mod_small. lia. }
    assert (Hanz : a mod p <> 0).
    { intros Hz. rewrite Zpower_mod, Hz in Hcertp by lia.
      rewrite Z.pow_0_l in Hcertp by nia. rewrite Z.mod_0_l in Hcertp by lia. lia. }
    pose proof (Z.fermat_nz p a Hp Hanz) as Hfermat.
    destruct (decompose_n_minus_1_spec p ltac:(lia))
      as (j & m & _ & Hj & Hmodd & Hdec & _).
    assert (Hmpos : 0 < m).
    { pose proof (Z.pow_pos_nonneg 2 j ltac:(lia) Hj). nia. }
    destruct (Z.lt_ge_cases j e) as [Hlt|Hge].
    - exfalso.
      (* y = a^(k * 2^j) has order dividing m and 2^(e-j) *)
      assert (Hy : a ^ (k * 2 ^ j) mod p = 1).
      { apply odd_and_two_power_order with (m := m) (t := Z.to_nat (e - j));
          try assumption; try lia.
        - rewrite <- Z.pow_mul_r by (try apply Z.mul_nonneg_nonneg; lia).
          replace (k * 2 ^ j * m) with ((p - 1) * k) by nia.
          rewrite pow_mul_mod, Hfermat by lia.
          rewrite Z.pow_1_l by lia. apply Z.mod_1_l. lia.
        - rewrite Z2Nat.id by lia.
          rewrite <- Z.pow_mul_r
            by (try apply Z.mul_nonneg_nonneg; try apply Z.pow_nonneg; lia).
          replace (k * 2 ^ j * 2 ^ (e - j)) with (k * 2 ^ (e - 1) * 2).
          + rewrite pow_mul_mod, Hcertp by nia.
            rewrite Z.pow_2_r.
            replace ((p - 1) * (p - 1)) with (1 + (p - 2) * p) by ring.
            rewrite Z_mod_plus_full. apply Z.mod_1_l. lia.
          + assert (Hsplit : 2 ^ j * 2 ^ (e - j) = 2 ^ e).
            { rewrite <- Z.pow_add_r by lia. f_equal. lia. }
            rewrite <- (Z.mul_assoc k (2 ^ j)), Hsplit, H2e. ring. }
      assert (Hone : a ^ (k * 2 ^ (e - 1)) mod p = 1).
      { replace (k * 2 ^ (e - 1)) with (k * 2 ^ j * 2 ^ (e - 1 - j)).
        - rewrite pow_mul_mod, Hy
            by (try apply Z.mul_nonneg_nonneg; try apply Z.pow_nonneg; lia).
          rewrite Z.pow_1_l by (apply Z.pow_nonneg; lia).
          apply Z.mod_1_l. lia.
        - assert (Hsplit : 2 ^ j * 2 ^ (e - 1 - j) = 2 ^ (e - 1)).
          { rewrite <- Z.pow_add_r by lia. f_equal. lia. }
          rewrite <- (Z.mul_assoc k (2 ^ j)), Hsplit. reflexivity. }
      lia.
    - assert (2 ^ e <= 2 ^ j) by (apply Z.pow_le_mono_r; lia). nia. }
  split; [unfold n; nia|].
  intros d Hd [c Hc].
  assert (Hc1 : 1 < c) by nia.
  destruct (exists_prime_divisor d ltac:(lia)) as (p & Hp & Hpd).
  destruct (exists_prime_divisor c Hc1) as (q & Hq & Hqc).
  assert (Hp' : 2 ^ e < p).
  { apply Hfactor; [assumption|]. apply Z.divide_trans with d; [assumption|].
    exists c. assumption. }
  assert (Hq' : 2 ^ e < q).
  { apply Hfactor; [assumption|]. apply Z.divide_trans with c; [assumption|].
    exists d. lia. }
  assert (p <= d) by (apply Z.divide_pos_le; [lia|assumption]).
  assert (q <= c) by (apply Z.divide_pos_le; [lia|assumption]).
  assert ((2 ^ e + 1) * (2 ^ e + 1) <= c * d) by (apply Z.mul_le_mono_nonneg; lia).
  unfold n in Hc. nia.
Qed.

(** The prime [25 * 2^64 + 1]. *)
Lemma prime_25_2_64 : Z.prime 461168601842738790401.
Proof.
  change 461168601842738790401 with (25 * 2 ^ 64 + 1).
  apply (proth_prime 25 64 3); [lia|lia|].
  rewrite <- Zpow_mod_correct by lia. vm_compute. reflexivity.
Qed.

End Proth.

(** ** Miller-Rabin above 2^64 *)

Section MillerRabinLarge.

Context `{Gmpy2}.

(** The random witnesses: as many as asked for, each in [2 .. n-2]. *)
Lemma draw_witnesses_spec (count : nat) (n : Z) :
  4 <= n ->
  forall st : random.state,
    exists (ws : list Z) (st' : random.state),
      MillerRabin.draw_witnesses count n st = Some (ws, st') /\
      length ws = count /\
      Forall (fun a => 2 <= a <= n - 2) ws /\
      forall i : nat, st' i = st (count + i)%nat.
Proof.
  intros Hn. induction count as [|count IH]; intros st;
    cbn [MillerRabin.draw_witnesses].
  - exists [], st. split; [reflexivity|]. split; [reflexivity|].
    split; [constructor|]. intros i. reflexivity.
  - unfold bind, lift_random, random.randrange, random.next.
    destruct (IH (fun i => st (S i))) as (ws & st' & -> & Hlen & Hall & Hst).
    eexists; eexists. split; [reflexivity|].
    split; [cbn; lia|]. split.
    + constructor; [|assumption].
      pose proof (Z.mod_pos_bound (st O) (n - 1 - 2) ltac:(lia)). lia.
    + intros i. rewrite Hst. reflexivity.
Qed.

Lemma witness_loop_all (ws : list Z) (n s d : Z) :
  Forall (fun a => MillerRabin._witness_test a n s d = true) ws ->
  MillerRabin.witness_loop ws n s d = true.
Proof.
  induction 1 as [|a ws Ha _ IH]; cbn [MillerRabin.witness_loop];
    [reflexivity|].
  rewrite Ha. cbn. assumption.
Qed.

(** X2.  Miller-Rabin never rejects a prime: for a prime [n >= 2^64] the
    tester answers [True] in either mode, whatever the rounds and the
    random draws. *)
Theorem miller_rabin_accepts_primes (n rounds : Z) (det : bool)
    (st : random.state) :
  Z.prime n -> 2 ^ 64 <= n ->
  exists st' : random.state,
    MillerRabin.test (MillerRabin.init rounds) n det st = Some (true, st').
Proof.
  intros Hp Hn. unfold MillerRabin.test.
  destruct (Z.leb_spec n 1); [lia|].
  destruct (Z.leb_spec n 3); [lia|].
  destruct (Z.eqb_spec (n mod 2) 0) as [Heven|Hodd].
  { exfalso. destruct Hp as [_ Hp]. apply (Hp 2); [lia|].
    apply Z.mod_divide; [lia|assumption]. }
  destruct (Z.ltb_spec n (2 ^ 64)); [lia|].
  destruct (decompose_n_minus_1_spec n ltac:(lia))
    as (s & d & Hdec & Hs & _ & Hpow & Hzero).
  unfold bind, lift_option. rewrite Hdec.
  assert (Hs1 : 1 <= s).
  { assert (s <> 0); [|lia]. intros Hs0. apply Hzero in Hs0. contradiction. }
  assert (Hd : 0 <= d).
  { pose proof (Z.pow_pos_nonneg 2 s ltac:(lia) Hs). nia. }
  assert (Hpass : forall a : Z, 0 < a < n ->
                    MillerRabin._witness_test a n s d = true).
  { intros a Ha. apply witness_test_prime; assumption. }
  destruct (det && (n <? 3317044064679887385961981)).
  - assert (Hbases : Forall (fun a => 0 < a)
                       (MillerRabin.deterministic_bases (MillerRabin.init rounds))).
    { cbn. repeat constructor. }
    exists st. unfold ret. f_equal. f_equal.
    apply witness_loop_all. apply Forall_forall. intros a Hin.
    apply list_elem_of_filter in Hin. destruct Hin as [Hlt Hin].
    apply Hpass. split.
    + rewrite Forall_forall in Hbases. apply Hbases. assumption.
    + apply Is_true_true in Hlt. apply Z.ltb_lt. assumption.
  - destruct (draw_witnesses_spec (Z.to_nat (MillerRabin.rounds (MillerRabin.init rounds)))
                n ltac:(lia) st) as (ws & st' & -> & _ & Hall & _).
    exists st'. unfold ret. f_equal. f_equal. apply witness_loop_all.
    apply (Forall_impl _ _ _ Hall). intros a Ha. apply Hpass. lia.
Qed.

(** X3.  With no round to run the tester proves nothing: for [rounds <= 0]
    the probabilistic mode answers [True] for every odd [n >= 2^64],
    composite or not, and draws nothing. *)
Theorem miller_rabin_no_rounds_accepts (n rounds : Z) (st : random.state) :
  rounds <= 0 -> 2 ^ 64 <= n -> n mod 2 = 1 ->
  MillerRabin.test (MillerRabin.init rounds) n false st = Some (true, st).
Proof.
  intros Hr Hn Hodd. unfold MillerRabin.test.
  destruct (Z.leb_spec n 1); [lia|].
  destruct (Z.leb_spec n 3); [lia|].
  rewrite Hodd. cbn [Z.eqb].
  destruct (Z.ltb_spec n (2 ^ 64)); [lia|].
  destruct (decompose_n_minus_1_spec n ltac:(lia)) as (s & d & Hdec & _).
  unfold bind, lift_option. rewrite Hdec. cbn [andb MillerRabin.rounds MillerRabin.init].
  replace (Z.to_nat rounds) with O by lia. reflexivity.
Qed.

End MillerRabinLarge.

Lemma miller_rabin_accepts_primes_witness :
  exists st' : random.state,
    MillerRabin.test (H := reference_gmpy2) (MillerRabin.init 3)
      461168601842738790401 false (random.of_list [5; 6; 7])
    = Some (true, st').
Proof.
  apply (miller_rabin_accepts_primes (H := reference_gmpy2)
           461168601842738790401 3 false (random.of_list [5; 6; 7])).
  - exact prime_25_2_64.
  - lia.
Defined.

Lemma miller_rabin_no_rounds_accepts_witness :
  MillerRabin.test (H := reference_gmpy2) (MillerRabin.init 0)
    composite_passing_lucas false (random.of_list [])
  = Some (true, random.of_list []).
Proof.
  apply (miller_rabin_no_rounds_accepts (H := reference_gmpy2)
           composite_passing_lucas 0 (random.of_list []));
    [lia | unfold composite_passing_lucas; lia | reflexivity].
Defined.

(** ** Below 1000 *)

Section Below1000.

Context `{Gmpy2}.

(** X4.  Below 1000 the Miller-Rabin entry of the dispatcher decides
    primality, whatever the keyword arguments and the library: no witness
    is drawn and the answer is [True] exactly on the primes. *)
Theorem is_prime_cpu_miller_rabin_exact_below_1000 (fuel : nat) (n : Z)
    (kwargs : gmap string Z) (st : random.state) :
  n < 1000 ->
  exists b : bool,
    is_prime_cpu fuel n "miller-rabin" kwargs st = Some (Py.Return b, st) /\
    (b = true <-> Z.prime n).
Proof.
  intros Hn. exists (utils.is_prime_small n). split.
  - unfold is_prime_cpu. cbn [String.eqb Ascii.eqb Bool.eqb].
    unfold bind. rewrite miller_rabin_small by lia. reflexivity.
  - apply is_prime_small_below_1000. assumption.
Qed.

(** X5.  Below 1000 BPSW has no false positive: what it reports prime is
    prime. *)
Theorem bpsw_sound_below_1000 (fuel : nat) (n : Z) (st st' : random.state) :
  n < 1000 ->
  BPSW.test BPSW.init fuel n st = Some (true, st') -> Z.prime n.
Proof.
  intros Hn. unfold BPSW.test.
  destruct (Z.leb_spec n 1); [discriminate|].
  destruct (Z.eqb_spec n 2) as [->|_]; [intros _; apply Z.prime_2|].
  destruct (n mod 2 =? 0); [discriminate|].
  unfold bind. rewrite miller_rabin_small by lia.
  destruct (utils.is_prime_small n) eqn:Hsmall; [|discriminate].
  intros _. apply is_prime_small_below_1000; assumption.
Qed.

End Below1000.

Lemma is_prime_cpu_miller_rabin_exact_below_1000_witness :
  exists b : bool,
    is_prime_cpu (H := reference_gmpy2) 0 561 "miller-rabin" ∅ (random.of_list [])
    = Some (Py.Return b, random.of_list []) /\
    (b = true <-> Z.prime 561).
Proof.
  apply (is_prime_cpu_miller_rabin_exact_below_1000 (H := reference_gmpy2)
           0 561 ∅ (random.of_list [])).
  lia.
Defined.

Lemma bpsw_sound_below_1000_witness : Z.prime 7.
Proof.
  apply (bpsw_sound_below_1000 (H := reference_gmpy2) 7 7
           (random.of_list []) (random.of_list []));
    [lia | reflexivity].
Defined.

(** X6.  Deterministic mode is not exact below its threshold: the composite
    318665857834031151167461 = 399165290221 * 798330580441 lies below
    3317044064679887385961981, and the twelve fixed bases all let it
    through. *)
Theorem miller_rabin_deterministic_false_positive `{Gmpy2}
    (rounds : Z) (st : random.state) :
  exists n : Z,
    n = 399165290221 * 798330580441 /\
    n < 3317044064679887385961981 /\
    MillerRabin.test (MillerRabin.init rounds) n true st = Some (true, st).
Proof.
  exists 318665857834031151167461.
  split; [reflexivity|]. split; [reflexivity|]. vm_compute. reflexivity.
Qed.

(** ** The decomposer's one endless loop *)

(** X7.  The halving loop of the Decomposer runs forever on [n = 1] and on
    no other input. *)
Theorem decompose_diverges_iff_one (n : Z) :
  (forall fuel : nat, utils.decompose_loop fuel 0 (n - 1) = None) <-> n = 1.
Proof.
  split.
  - intros Hnone. destruct (Z.eq_dec n 1) as [|Hne]; [assumption|]. exfalso.
    destruct (decompose_n_minus_1_spec n Hne) as (s & d & Hrun & _).
    unfold utils.decompose_n_minus_1 in Hrun. rewrite Hnone in Hrun.
    discriminate.
  - intros -> fuel. apply decompose_loop_zero.
Qed.

(** ** The discriminant search *)

Section FindD.

(** Every discriminant the search probes is 1 modulo 4 and at least 5 in
    absolute value. *)
Lemma find_D_loop_spec (fuel : nat) :
  forall D0 n D : Z,
    D0 mod 4 = 1 -> 5 <= Z.abs D0 ->
    LucasPrimality.find_D_loop fuel D0 n = Some (Some D) ->
    utils.jacobi_symbol D n = -1 /\ D mod 4 = 1 /\
    Z.abs D0 <= Z.abs D /\ (D = D0 \/ Z.abs D <= n).
Proof.
  induction fuel as [|fuel IH]; intros D0 n D Hmod Habs Hrun; [discriminate|].
  cbn [LucasPrimality.find_D_loop] in Hrun.
  destruct (Z.eqb_spec (utils.jacobi_symbol D0 n) (-1)) as [Hj|Hj].
  - injection Hrun as <-. repeat split; try assumption; try lia.
  - set (D1 := if 0 <? D0 then - D0 - 2 else - D0 + 2) in *.
    assert (HD1 : D1 mod 4 = 1 /\ Z.abs D1 = Z.abs D0 + 2).
    { unfold D1. destruct (Z.ltb_spec 0 D0); split; try lia.
      - replace (- D0 - 2) with (1 - D0 + (-1) * 4 + 1) by lia.
        Z.to_euclidean_division_equations. lia.
      - Z.to_euclidean_division_equations. lia. }
    destruct HD1 as [Hmod1 Habs1].
    destruct (Z.ltb_spec n (Z.abs D1)); [discriminate|].
    destruct (IH D1 n D Hmod1 ltac:(lia) Hrun) as (Hjac & HmodD & Hle & Hor).
    repeat split; try assumption; lia.
Qed.

(** X8.  A discriminant accepted by [_find_D] has Jacobi symbol -1, is 1
    modulo 4, so that [Q = (1 - D) // 4] is an exact quotient
    ([D = 1 - 4 * Q]), and is 5 or at most [n] in absolute value. *)
Theorem find_D_accepted (fuel : nat) (n D : Z) :
  LucasPrimality._find_D fuel n = Some (Some D) ->
  utils.jacobi_symbol D n = -1 /\ D mod 4 = 1 /\
  D = 1 - 4 * ((1 - D) / 4) /\ (D = 5 \/ (5 <= Z.abs D <= n)).
Proof.
  intros Hrun. unfold LucasPrimality._find_D in Hrun.
  destruct (find_D_loop_spec fuel 5 n D ltac:(reflexivity)
              ltac:(change (Z.abs 5) with 5; lia) Hrun)
    as (Hjac & Hmod & Hle & Hor).
  change (Z.abs 5) with 5 in Hle.
  repeat split; try assumption.
  - Z.to_euclidean_division_equations. lia.
  - destruct Hor as [->|Hn]; [left; reflexivity|right; lia].
Qed.

End FindD.

Lemma find_D_accepted_witness :
  utils.jacobi_symbol (-7) 19 = -1 /\ (-7) mod 4 = 1 /\
  -7 = 1 - 4 * ((1 - -7) / 4) /\ (-7 = 5 \/ (5 <= Z.abs (-7) <= 19)).
Proof. apply (find_D_accepted 2 19 (-7)). reflexivity. Defined.

(** ** The ladder *)

Section Ladder.

Variables n D P Q : Z.
Hypothesis Hn : 0 < n.

Lemma ladder_step_inv (k : Z) (st : Z * Z * Z) (bit : bool) :
  0 <= k -> (let '(_, _, Qk) := st in Qk mod n = Q ^ k mod n) ->
  ladder_inv n Q (2 * k + (if bit then 1 else 0))
    (LucasPrimality.ladder_step n D P Q st bit).
Proof.
  destruct st as [[U V] Qk]. intros Hk HQ.
  assert (Hsq : Qk * Qk mod n = Q ^ (2 * k) mod n).
  { rewrite Z.mul_mod, HQ, <- Z.mul_mod by lia.
    rewrite <- Z.pow_add_r by lia. f_equal. f_equal. lia. }
  unfold LucasPrimality.ladder_step, ladder_inv. destruct bit.
  - repeat split; try (apply Z.mod_pos_bound; lia).
    rewrite Hsq, Z.mul_mod_idemp_l by lia.
    rewrite Z.pow_add_r, Z.pow_1_r by lia. reflexivity.
  - repeat split; try (apply Z.mod_pos_bound; lia).
    rewrite Hsq, Z.add_0_r. reflexivity.
Qed.

Lemma ladder_pos_inv (p : positive) :
  ladder_inv n Q (Zpos p)
    (fold_left (LucasPrimality.ladder_step n D P Q)
       (rev (Py.pos_digits_lsb p)) (0, 2, 1)).
Proof.
  induction p as [p IH|p IH|]; cbn [Py.pos_digits_lsb rev].
  - rewrite fold_left_app. cbn [fold_left].
    change (Zpos p~1) with (2 * Zpos p + (if true then 1 else 0)).
    apply ladder_step_inv; [lia|].
    destruct (fold_left _ _ _) as [[U V] Qk]. destruct IH as (_ & _ & ->).
    apply Z.mod_mod. lia.
  - rewrite fold_left_app. cbn [fold_left].
    change (Zpos p~0) with (2 * Zpos p + (if false then 1 else 0)).
    apply ladder_step_inv; [lia|].
    destruct (fold_left _ _ _) as [[U V] Qk]. destruct IH as (_ & _ & ->).
    apply Z.mod_mod. lia.
  - cbn [fold_left].
    exact (ladder_step_inv 0 (0, 2, 1) true ltac:(lia) eq_refl).
Qed.

End Ladder.

(** X9.  Whatever the bits of [k > 0], the ladder keeps [U] and [V]
    reduced modulo [n] and its third component is exactly [Q^k mod n]. *)
Theorem ladder_tracks_power_of_Q (n D P Q k : Z) :
  0 < n -> 0 < k ->
  let '(U, V, Qk) :=
    fold_left (LucasPrimality.ladder_step n D P Q) (Py.bin_digits k) (0, 2, 1) in
  0 <= U < n /\ 0 <= V < n /\ Qk = Q ^ k mod n.
Proof.
  intros Hn Hk. destruct k as [|p|p]; try lia.
  apply (ladder_pos_inv n D P Q Hn p).
Qed.

Lemma ladder_tracks_power_of_Q_witness :
  let '(U, V, Qk) :=
    fold_left (LucasPrimality.ladder_step 13 5 1 (-1)) (Py.bin_digits 14) (0, 2, 1) in
  0 <= U < 13 /\ 0 <= V < 13 /\ Qk = (-1) ^ 14 mod 13.
Proof. apply (ladder_tracks_power_of_Q 13 5 1 (-1) 14); lia. Defined.

(** ** Lucas-Lehmer *)

Section LucasLehmerRefinement.

Context `{Gmpy2}.

Lemma iterate_mod (Mp : Z) (count : nat) :
  0 < Mp ->
  forall (s : Z) (k : nat),
    s mod Mp = Math.lucas_lehmer_S k mod Mp ->
    LucasLehmer.iterate count s Mp mod Mp
    = Math.lucas_lehmer_S (count + k) mod Mp.
Proof.
  intros HMp. induction count as [|count IH]; intros s k Hs;
    cbn [LucasLehmer.iterate]; [assumption|].
  rewrite (IH _ (S k)).
  - f_equal. f_equal. lia.
  - rewrite Z.mod_mod by lia. cbn [Math.lucas_lehmer_S].
    rewrite Zminus_mod, Z.mul_mod, Hs, <- Z.mul_mod, <- Zminus_mod by lia.
    reflexivity.
Qed.

Lemma iterate_bounded (Mp : Z) (count : nat) (s : Z) :
  0 < Mp -> 0 <= s < Mp -> 0 <= LucasLehmer.iterate count s Mp < Mp.
Proof.
  intros HMp. revert s. induction count as [|count IH]; intros s Hs;
    cbn [LucasLehmer.iterate]; [assumption|].
  apply IH. apply Z.mod_pos_bound. assumption.
Qed.

(** X10.  The modular iteration of the Lucas-Lehmer tester follows the
    integer sequence [S_0 = 4], [S_(k+1) = S_k^2 - 2]: for [p >= 3] the
    tester answers [True] exactly when [p] passes the small-integer check
    and [2^p - 1] divides [S_(p-2)]. *)
Theorem lucas_lehmer_test_refines_sequence (p : Z) :
  3 <= p ->
  (LucasLehmer.test p = true <->
   utils.is_prime_small p = true /\
   (2 ^ p - 1 | Math.lucas_lehmer_S (Z.to_nat (p - 2)))).
Proof.
  intros Hp. unfold LucasLehmer.test.
  destruct (Z.eqb_spec p 2); [lia|].
  destruct (utils.is_prime_small p); cbn [negb].
  2: { split; [discriminate|]. intros [Hf _]. discriminate. }
  assert (HMp : 4 < 2 ^ p - 1).
  { assert (2 ^ 3 <= 2 ^ p) by (apply Z.pow_le_mono_r; lia).
    change (2 ^ 3) with 8 in *. lia. }
  pose proof (iterate_mod (2 ^ p - 1) (Z.to_nat (p - 2)) ltac:(lia)
                4 O ltac:(reflexivity)) as Hmod.
  pose proof (iterate_bounded (2 ^ p - 1) (Z.to_nat (p - 2)) 4
                ltac:(lia) ltac:(lia)) as Hb.
  rewrite Z.mod_small in Hmod by assumption.
  rewrite Nat.add_0_r in Hmod.
  rewrite Z.eqb_eq, Hmod. split.
  - intros Hz. split; [reflexivity|]. apply Z.mod_divide; [lia|assumption].
  - intros [_ Hdiv]. apply Z.mod_divide; [lia|assumption].
Qed.

End LucasLehmerRefinement.

Lemma lucas_lehmer_test_refines_sequence_witness :
  LucasLehmer.test (H := reference_gmpy2) 7 = true <->
  utils.is_prime_small (H := reference_gmpy2) 7 = true /\
  (2 ^ 7 - 1 | Math.lucas_lehmer_S (Z.to_nat (7 - 2))).
Proof.
  apply (lucas_lehmer_test_refines_sequence (H := reference_gmpy2) 7). lia.
Defined.

(** ** The Lucas sequences and their doubling identities *)

Section LucasIdentities.

Variables P Q : Z.

Local Abbreviation u := (Spec.lucas_U P Q).
Local Abbreviation v := (Math.lucas_V P Q).

Lemma lucas_U_rec (k : nat) : u (S (S k)) = P * u (S k) - Q * u k.
Proof.
  unfold Spec.lucas_U. cbn [Spec.lucas_pair].
  destruct (Spec.lucas_pair P Q k) as [u0 u1]. reflexivity.
Qed.

Lemma lucas_V_rec (k : nat) : v (S (S k)) = P * v (S k) - Q * v k.
Proof.
  unfold Math.lucas_V. cbn [Math.lucas_V_pair].
  destruct (Math.lucas_V_pair P Q k) as [v0 v1]. reflexivity.
Qed.

Lemma lucas_U_0 : u 0 = 0. Proof. reflexivity. Qed.
Lemma lucas_U_1 : u 1 = 1. Proof. reflexivity. Qed.
Lemma lucas_V_0 : v 0 = 2. Proof. reflexivity. Qed.
Lemma lucas_V_1 : v 1 = P. Proof. reflexivity. Qed.

(** The addition formula. *)
Lemma lucas_U_add (m : nat) :
  forall k : nat,
    u (m + k + 1) = u (m + 1) * u (k + 1) - Q * u m * u k.
Proof.
  induction m as [|m IH]; intros k.
  - cbn [Nat.add]. rewrite lucas_U_0, lucas_U_1. ring.
  - replace (S m + k + 1)%nat with (m + (k + 1) + 1)%nat by lia.
    rewrite IH.
    replace (k + 1 + 1)%nat with (S (S k)) by lia.
    replace (S m + 1)%nat with (S (S m)) by lia.
    replace (m + 1)%nat with (S m) by lia.
    replace (k + 1)%nat with (S k) by lia.
    rewrite !lucas_U_rec. ring.
Qed.

(** Cassini's identity. *)
Lemma lucas_U_cassini (j : nat) :
  u (S j) * u (S j) - u (S (S j)) * u j = Q ^ Z.of_nat j.
Proof.
  induction j as [|j IH].
  - rewrite lucas_U_0, lucas_U_1. change (Z.of_nat 0) with 0.
    rewrite Z.pow_0_r. ring.
  - rewrite Nat2Z.inj_succ, Z.pow_succ_r by lia. rewrite <- IH.
    rewrite (lucas_U_rec (S j)). rewrite (lucas_U_rec j). ring.
Qed.

Lemma lucas_V_as_U (j : nat) :
  v (S j) = u (S (S j)) - Q * u j /\
  v (S (S j)) = u (S (S (S j))) - Q * u (S j).
Proof.
  induction j as [|j [IH1 IH2]].
  - rewrite lucas_V_rec, lucas_V_0, lucas_V_1.
    rewrite (lucas_U_rec 1), (lucas_U_rec 0), lucas_U_0, lucas_U_1.
    split; ring.
  - split; [assumption|].
    rewrite lucas_V_rec, IH1, IH2.
    rewrite (lucas_U_rec (S (S j))), (lucas_U_rec (S j)), (lucas_U_rec j). ring.
Qed.

(** The doubling identities the ladder relies on. *)
Lemma lucas_double (m : nat) :
  (1 <= m)%nat ->
  u (2 * m) = u m * v m /\
  v (2 * m) = v m * v m - 2 * Q ^ Z.of_nat m.
Proof.
  intros Hm. destruct m as [|j]; [lia|].
  destruct (lucas_V_as_U j) as [Hv _].
  split.
  - replace (2 * S j)%nat with (j + S j + 1)%nat by lia.
    rewrite lucas_U_add, Hv.
    replace (j + 1)%nat with (S j) by lia.
    replace (S j + 1)%nat with (S (S j)) by lia. ring.
  - assert (H3 : u (S (S (S (j + j)))) = u (S (S j)) * u (S (S j)) - Q * u (S j) * u (S j)).
    { replace (S (S (S (j + j)))) with (S j + S j + 1)%nat by lia.
      rewrite lucas_U_add. replace (S j + 1)%nat with (S (S j)) by lia.
      reflexivity. }
    assert (H1 : u (S (j + j)) = u (S j) * u (S j) - Q * u j * u j).
    { replace (S (j + j)) with (j + j + 1)%nat by lia.
      rewrite lucas_U_add. replace (j + 1)%nat with (S j) by lia.
      reflexivity. }
    replace (2 * S j)%nat with (S (S (j + j))) by lia.
    destruct (lucas_V_as_U (S (j + j))) as [Hv2 _].
    rewrite Hv2, H3, H1, Hv.
    rewrite Nat2Z.inj_succ, Z.pow_succ_r by lia.
    rewrite <- (lucas_U_cassini j). ring.
Qed.

End LucasIdentities.

(** ** The ladder on powers of two *)

Section LadderDoubling.

Variables n D Q : Z.
Hypothesis Hn : 2 < n.

Local Abbreviation u := (Spec.lucas_U 1 Q).
Local Abbreviation v := (Math.lucas_V 1 Q).

Lemma ladder_doublings (t : nat) :
  forall m : nat,
    (1 <= m)%nat ->
    fold_left (LucasPrimality.ladder_step n D 1 Q) (repeat false t)
      (u m mod n, v m mod n, Q ^ Z.of_nat m mod n)
    = (u (2 ^ t * m) mod n, v (2 ^ t * m) mod n,
       Q ^ Z.of_nat (2 ^ t * m) mod n).
Proof.
  induction t as [|t IH]; intros m Hm; cbn [repeat fold_left].
  - rewrite Nat.pow_0_r, Nat.mul_1_l. reflexivity.
  - unfold LucasPrimality.ladder_step at 2.
    destruct (lucas_double 1 Q m Hm) as [Hu Hv].
    replace (u m mod n * (v m mod n) mod n) with (u (2 * m) mod n)
      by (rewrite Hu, <- Z.mul_mod by lia; reflexivity).
    replace ((v m mod n * (v m mod n) - 2 * (Q ^ Z.of_nat m mod n)) mod n)
      with (v (2 * m) mod n).
    2: { rewrite Hv. rewrite Zminus_mod, (Z.mul_mod (v m) (v m)) by lia.
         rewrite (Z.mul_mod 2 (Q ^ Z.of_nat m)) by lia.
         rewrite (Zminus_mod (v m mod n * (v m mod n))).
         rewrite (Z.mul_mod 2 (Q ^ Z.of_nat m mod n)) by lia.
         rewrite !Z.mod_mod by lia. reflexivity. }
    replace (Q ^ Z.of_nat m mod n * (Q ^ Z.of_nat m mod n) mod n)
      with (Q ^ Z.of_nat (2 * m) mod n).
    2: { rewrite <- Z.mul_mod by lia. rewrite <- Z.pow_add_r by lia.
         f_equal. f_equal. lia. }
    rewrite IH by lia.
    replace (2 ^ t * (2 * m))%nat with (2 ^ S t * m)%nat
      by (rewrite Nat.pow_succ_r'; lia).
    reflexivity.
Qed.

Lemma ladder_first_bit :
  LucasPrimality.ladder_step n D 1 Q (0, 2, 1) true
  = (u 1 mod n, v 1 mod n, Q ^ Z.of_nat 1 mod n).
Proof.
  unfold LucasPrimality.ladder_step.
  replace (0 * 2 mod n) with 0 by (symmetry; apply Z.mod_0_l; lia).
  replace ((2 * 2 - 2 * 1) mod n) with 2 by (symmetry; apply Z.mod_small; lia).
  replace (1 * 1 mod n) with 1 by (symmetry; apply Z.mod_small; lia).
  rewrite !Z.mul_0_r, (Z.mul_1_l Q).
  change (Z.of_nat 1) with 1. rewrite Z.pow_1_r.
  reflexivity.
Qed.

End LadderDoubling.

Lemma bin_digits_power_of_two (t : nat) :
  Py.bin_digits (2 ^ Z.of_nat t) = true :: repeat false t.
Proof.
  induction t as [|t IH]; [reflexivity|].
  rewrite Nat2Z.inj_succ, Z.pow_succ_r by lia.
  destruct (2 ^ Z.of_nat t) as [|p|p] eqn:Hp; try discriminate.
  change (2 * Z.pos p) with (Z.pos p~0).
  cbn [Py.bin_digits Py.pos_digits_lsb rev]. cbn [Py.bin_digits] in IH.
  rewrite IH. cbn [app]. f_equal.
  clear. induction t as [|t IHt]; [reflexivity|].
  cbn [repeat app]. rewrite IHt. reflexivity.
Qed.

(** X11.  On a candidate of the form [2^t - 1] the ladder takes no addition
    step after the first bit and is exact: [_lucas_sequence_test] answers
    [True] exactly when [U_(n+1)] of the Lucas sequence with [P = 1],
    [Q = (1 - D) // 4] is 0 modulo [n]. *)
Theorem lucas_sequence_test_exact_on_mersenne_form (n D : Z) (t : nat) :
  2 < n -> n + 1 = 2 ^ Z.of_nat t ->
  LucasPrimality._lucas_sequence_test n D
  = (Spec.lucas_U 1 ((1 - D) / 4) (2 ^ t) mod n =? 0).
Proof.
  intros Hn Hform. unfold LucasPrimality._lucas_sequence_test.
  rewrite Hform, bin_digits_power_of_two. cbn [fold_left].
  rewrite (ladder_first_bit n D ((1 - D) / 4) Hn).
  rewrite (ladder_doublings n D ((1 - D) / 4) Hn t 1 ltac:(lia)).
  rewrite Nat.mul_1_r. reflexivity.
Qed.

Lemma lucas_sequence_test_exact_on_mersenne_form_witness :
  LucasPrimality._lucas_sequence_test 7 5
  = (Spec.lucas_U 1 ((1 - 5) / 4) (2 ^ 3) mod 7 =? 0).
Proof.
  apply (lucas_sequence_test_exact_on_mersenne_form 7 5 3); [lia|reflexivity].
Defined.

(** ** Perfect squares *)

(** X12.  [is_perfect_square] raises on a negative argument; on [n >= 0] it
    returns the integer square root [r] of [n] and the flag is [True]
    exactly when [n] is a square, in which case [r * r = n]. *)
Theorem is_perfect_square_spec (n : Z) :
  (n < 0 -> utils.is_perfect_square n = None) /\
  (0 <= n ->
   exists (b : bool) (r : Z),
     utils.is_perfect_square n = Some (b, r) /\
     0 <= r /\ r * r <= n < (r + 1) * (r + 1) /\
     (b = true <-> exists m : Z, m * m = n) /\
     (b = true -> r * r = n)).
Proof.
  unfold utils.is_perfect_square, gmpy2.isqrt. split.
  - intros Hneg. destruct (Z.ltb_spec n 0); [reflexivity|lia].
  - intros Hn. destruct (Z.ltb_spec n 0); [lia|].
    exists (Z.sqrt n * Z.sqrt n =? n), (Z.sqrt n).
    pose proof (Z.sqrt_spec n Hn) as Hspec. pose proof (Z.sqrt_nonneg n).
    split; [reflexivity|]. split; [assumption|].
    split; [unfold Z.succ in Hspec; lia|].
    rewrite Z.eqb_eq. split; [|intros E; exact E].
    split.
    + intros Hsq. exists (Z.sqrt n). assumption.
    + intros (m & <-). rewrite <- (Z.abs_square m) at 1 2.
      rewrite Z.sqrt_square by lia. rewrite Z.abs_square. reflexivity.
Qed.

(** X13.  Round trip: the square of any [r >= 0] is recognised, with [r]
    handed back. *)
Theorem is_perfect_square_of_square (r : Z) :
  0 <= r -> utils.is_perfect_square (r * r) = Some (true, r).
Proof.
  intros Hr. unfold utils.is_perfect_square, gmpy2.isqrt.
  destruct (Z.ltb_spec (r * r) 0); [nia|].
  rewrite Z.sqrt_square by assumption. rewrite Z.eqb_refl. reflexivity.
Qed.

Lemma is_perfect_square_of_square_witness :
  utils.is_perfect_square (12345678901234567890 * 12345678901234567890)
  = Some (true, 12345678901234567890).
Proof. apply (is_perfect_square_of_square 12345678901234567890). lia. Defined.

(** ** Mersenne candidates and the automatic choice *)

Section MersenneDispatch.

Context `{Gmpy2}.

Lemma bit_count_power_of_two (p : Z) :
  0 <= p -> Py.bit_count (2 ^ p) = 1.
Proof.
  intros Hp. rewrite <- (Z2Nat.id p) by assumption.
  induction (Z.to_nat p) as [|t IH]; [reflexivity|].
  rewrite Nat2Z.inj_succ, Z.pow_succ_r by lia.
  destruct (2 ^ Z.of_nat t) as [|q|q]; [discriminate IH|exact IH|exact IH].
Qed.

Lemma bit_count_mersenne (p : Z) :
  0 <= p -> Py.bit_count (2 ^ p - 1) = p.
Proof.
  intros Hp. rewrite <- (Z2Nat.id p) by assumption.
  induction (Z.to_nat p) as [|t IH]; [reflexivity|].
  rewrite Nat2Z.inj_succ, Z.pow_succ_r by lia.
  pose proof (Z.pow_pos_nonneg 2 (Z.of_nat t) ltac:(lia) ltac:(lia)) as Hpos.
  replace (2 * 2 ^ Z.of_nat t - 1) with (2 * (2 ^ Z.of_nat t - 1) + 1) by lia.
  destruct (2 ^ Z.of_nat t - 1) as [|q|q] eqn:Hq; try lia.
  - change (Py.bit_count (2 * 0 + 1)) with 1.
    change (Py.bit_count 0) with 0 in IH. lia.
  - change (Py.bit_count (2 * Z.pos q + 1)) with (1 + Py.pos_bit_count q).
    change (Py.bit_count (Z.pos q)) with (Py.pos_bit_count q) in IH. lia.
Qed.

Lemma mersenne_candidate_bits (p : Z) :
  1 <= p ->
  Py.bit_length (utils.generate_mersenne_candidate p) = p /\
  Py.bit_count (utils.generate_mersenne_candidate p) = p /\
  Py.bit_count (utils.generate_mersenne_candidate p + 1) = 1 /\
  Py.bit_length (utils.generate_mersenne_candidate p + 1) - 1 = p.
Proof.
  intros Hp. unfold utils.generate_mersenne_candidate.
  assert (Hpow : 2 <= 2 ^ p).
  { change 2 with (2 ^ 1) at 1. apply Z.pow_le_mono_r; lia. }
  replace (2 ^ p - 1 + 1) with (2 ^ p) by lia.
  repeat split.
  - unfold Py.bit_length. destruct (Z.eqb_spec (2 ^ p - 1) 0); [lia|].
    rewrite Z.abs_eq by lia.
    replace (2 ^ p - 1) with (Z.pred (2 ^ p)) by lia.
    rewrite Z.log2_pred_pow2 by lia. lia.
  - apply bit_count_mersenne. lia.
  - apply bit_count_power_of_two. lia.
  - unfold Py.bit_length. destruct (Z.eqb_spec (2 ^ p) 0); [lia|].
    rewrite Z.abs_eq by lia. rewrite Z.log2_pow2 by lia. lia.
Qed.

(** X14.  [generate_mersenne_candidate(p)] for [p >= 1] has exactly [p]
    bits, all of them set; its successor has a single set bit, of index
    [p]. *)
Theorem generate_mersenne_candidate_bits (p : Z) :
  1 <= p ->
  Py.bit_length (utils.generate_mersenne_candidate p) = p /\
  Py.bit_count (utils.generate_mersenne_candidate p) = p /\
  Py.bit_count (utils.generate_mersenne_candidate p + 1) = 1 /\
  Py.bit_length (utils.generate_mersenne_candidate p + 1) - 1 = p.
Proof.
  intros Hp. destruct (mersenne_candidate_bits p Hp) as (H1 & H2 & H3 & H4).
  repeat split; assumption.
Qed.

(** X15.  The automatic choice on [2^p - 1], [p >= 3] passing the
    small-integer check, is the Lucas-Lehmer test of [p]: the call equals
    the call by name with the detected [p], and a [p] the caller passed is
    overridden. *)
Theorem is_prime_cpu_auto_mersenne (fuel : nat) (p : Z)
    (kwargs : gmap string Z) (st : random.state) :
  3 <= p -> utils.is_prime_small p = true ->
  is_prime_cpu fuel (utils.generate_mersenne_candidate p) "auto" kwargs st
  = Some (Py.Return (LucasLehmer.test p), st) /\
  is_prime_cpu fuel (utils.generate_mersenne_candidate p) "auto" kwargs st
  = is_prime_cpu fuel (utils.generate_mersenne_candidate p) "lucas-lehmer"
      (<["p"%string := p]> kwargs) st.
Proof.
  intros Hp Hsmall.
  destruct (mersenne_candidate_bits p ltac:(lia))
    as (_ & _ & Hcount & Hlen).
  assert (Hbig : 3 < utils.generate_mersenne_candidate p).
  { unfold utils.generate_mersenne_candidate.
    assert (2 ^ 3 <= 2 ^ p) by (apply Z.pow_le_mono_r; lia).
    change (2 ^ 3) with 8 in *. lia. }
  unfold is_prime_cpu.
  change (String.eqb "auto" "auto") with true. cbv iota.
  rewrite Hcount, Hlen, Hsmall.
  destruct (Z.ltb_spec 3 (utils.generate_mersenne_candidate p)); [|lia].
  cbn. rewrite lookup_insert_eq. split; reflexivity.
Qed.

End MersenneDispatch.

Lemma generate_mersenne_candidate_bits_witness :
  Py.bit_length (utils.generate_mersenne_candidate 50) = 50 /\
  Py.bit_count (utils.generate_mersenne_candidate 50) = 50 /\
  Py.bit_count (utils.generate_mersenne_candidate 50 + 1) = 1 /\
  Py.bit_length (utils.generate_mersenne_candidate 50 + 1) - 1 = 50.
Proof. apply (generate_mersenne_candidate_bits 50). lia. Defined.

Lemma is_prime_cpu_auto_mersenne_witness :
  is_prime_cpu (H := reference_gmpy2) 0 (utils.generate_mersenne_candidate 7)
    "auto" (<["p"%string := 9]> ∅) (random.of_list [])
  = Some (Py.Return (LucasLehmer.test (H := reference_gmpy2) 7), random.of_list []) /\
  is_prime_cpu (H := reference_gmpy2) 0 (utils.generate_mersenne_candidate 7)
    "auto" (<["p"%string := 9]> ∅) (random.of_list [])
  = is_prime_cpu (H := reference_gmpy2) 0 (utils.generate_mersenne_candidate 7)
      "lucas-lehmer" (<["p"%string := 7]> (<["p"%string := 9]> ∅))
      (random.of_list []).
Proof.
  apply (is_prime_cpu_auto_mersenne (H := reference_gmpy2) 0 7
           (<["p"%string := 9]> ∅) (random.of_list []));
    [lia | reflexivity].
Defined.

(** ** The GPU testers *)

Section GpuFormat.

Lemma to_gpu_loop_spec (fuel : nat) :
  forall n acc,
    (0 < fuel)%nat ->
    (0 < n -> Z.log2 n + 1 < Z.of_nat fuel) ->
    exists ds,
      GPUPrimalityTest.to_gpu_loop fuel n acc = Some (acc ++ ds) /\
      Forall (fun d => 0 <= d < 2 ^ 32) ds /\
      Math.digits_value ds = Z.max n 0 /\
      List.last ds 1 <> 0.
Proof.
  induction fuel as [|fuel IH]; intros n acc Hfuel0 Hfuel.
  - lia.
  - cbn [GPUPrimalityTest.to_gpu_loop].
    destruct (0 <? n) eqn:Hpos.
    + apply Z.ltb_lt in Hpos.
      specialize (Hfuel Hpos).
      pose proof (Z.log2_nonneg n) as Hlog0.
      assert (Hlog : 0 < n / 2 ^ 32 ->
                     Z.log2 (n / 2 ^ 32) + 1 < Z.of_nat fuel).
      { intros Hq.
        assert (Hbig : 32 <= Z.log2 n).
        { apply Z.log2_le_pow2; [assumption|].
          pose proof (Z.div_mod n (2 ^ 32) ltac:(lia)).
          pose proof (Z.mod_pos_bound n (2 ^ 32) ltac:(lia)). lia. }
        rewrite <- Z.shiftr_div_pow2 by lia.
        rewrite Z.log2_shiftr by lia. lia. }
      destruct (IH (n / 2 ^ 32) (acc ++ [n mod 2 ^ 32]) ltac:(lia) Hlog)
        as (ds & Hrun & Hall & Hval & Hlast).
      exists (n mod 2 ^ 32 :: ds).
      rewrite Hrun, <- app_assoc. cbn [app].
      split; [reflexivity|].
      split; [constructor; [apply Z.mod_pos_bound; lia|assumption]|].
      split.
      * cbn [Math.digits_value]. rewrite Hval.
        assert (0 <= n / 2 ^ 32) by (apply Z.div_pos; lia).
        rewrite Z.max_l by lia. rewrite Z.max_l by lia.
        pose proof (Z.div_mod n (2 ^ 32) ltac:(lia)). lia.
      * destruct ds as [|d ds'].
        -- cbn [List.last]. cbn [Math.digits_value] in Hval.
           assert (0 <= n / 2 ^ 32) by (apply Z.div_pos; lia).
           rewrite Z.max_l in Hval by lia.
           pose proof (Z.div_mod n (2 ^ 32) ltac:(lia)). lia.
        -- exact Hlast.
    + apply Z.ltb_ge in Hpos.
      exists []. rewrite app_nil_r.
      split; [reflexivity|]. split; [constructor|].
      split; [cbn [Math.digits_value]; lia|]. cbn [List.last]. lia.
Qed.

(** X16.  [_to_gpu_format] writes a positive number in base 2^32: every
    digit is below 2^32, the digits stand for the number, least
    significant first, the most significant digit is not zero, and the
    second component is the number of digits.  A number that is zero or
    negative gives no digit at all. *)
Theorem to_gpu_format_spec (fuel : nat) (n : Z) :
  Z.log2 n + 1 < Z.of_nat fuel ->
  exists digits,
    GPUPrimalityTest._to_gpu_format fuel n
      = Some (digits, Z.of_nat (length digits)) /\
    Forall (fun d => 0 <= d < 2 ^ 32) digits /\
    Math.digits_value digits = Z.max n 0 /\
    List.last digits 1 <> 0 /\
    (n <= 0 -> digits = []).
Proof.
  intros Hfuel.
  pose proof (Z.log2_nonneg n) as Hlog0.
  destruct (to_gpu_loop_spec fuel n [] ltac:(lia) ltac:(lia)) as (ds & Hrun & Hall & Hval & Hlast).
  cbn [app] in Hrun.
  exists ds. unfold GPUPrimalityTest._to_gpu_format. rewrite Hrun.
  repeat split; try assumption.
  intros Hn. destruct fuel as [|fuel]; [discriminate|].
  cbn [GPUPrimalityTest.to_gpu_loop] in Hrun.
  destruct (0 <? n) eqn:Hpos; [apply Z.ltb_lt in Hpos; lia|].
  congruence.
Qed.

Lemma to_gpu_format_spec_witness :
  Z.log2 (2 ^ 70 + 5) + 1 < Z.of_nat 80 /\
  exists digits,
    GPUPrimalityTest._to_gpu_format 80 (2 ^ 70 + 5)
      = Some (digits, Z.of_nat (length digits)) /\
    Forall (fun d => 0 <= d < 2 ^ 32) digits /\
    Math.digits_value digits = Z.max (2 ^ 70 + 5) 0 /\
    List.last digits 1 <> 0 /\
    (2 ^ 70 + 5 <= 0 -> digits = []).
Proof.
  split; [vm_compute; reflexivity|].
  apply (to_gpu_format_spec 80 (2 ^ 70 + 5)). vm_compute. reflexivity.
Defined.

End GpuFormat.

Section GpuLucasLehmer.

Context `{Gmpy2}.

Lemma kernel_loop_add (a b : nat) (Mp : Z) :
  forall s,
    LucasLehmerGPU.kernel_loop (a + b) s Mp
    = LucasLehmerGPU.kernel_loop b (LucasLehmerGPU.kernel_loop a s Mp) Mp.
Proof.
  induction a as [|a IH]; intros s; cbn [Nat.add LucasLehmerGPU.kernel_loop].
  - reflexivity.
  - apply IH.
Qed.

Lemma batch_loop_spec (batch_size total Mp : Z) (fuel : nat) :
  1 <= batch_size ->
  forall done s,
    0 <= done ->
    Z.max 0 (total - done) < Z.of_nat fuel ->
    LucasLehmerGPU.batch_loop fuel batch_size total done s Mp
    = Some (LucasLehmerGPU.lucas_lehmer_iteration s Mp (total - done)).
Proof.
  intros Hbatch.
  induction fuel as [|fuel IH]; intros done s Hdone Hfuel.
  - lia.
  - cbn [LucasLehmerGPU.batch_loop].
    destruct (done <? total) eqn:Hlt.
    + apply Z.ltb_lt in Hlt.
      set (b := Z.min batch_size (total - done)).
      assert (Hb : 1 <= b <= total - done) by (unfold b; lia).
      rewrite IH by lia.
      f_equal. unfold LucasLehmerGPU.lucas_lehmer_iteration.
      replace (Z.to_nat (total - done))
        with (Z.to_nat b + Z.to_nat (total - (done + b)))%nat by lia.
      symmetry. apply kernel_loop_add.
    + apply Z.ltb_ge in Hlt.
      unfold LucasLehmerGPU.lucas_lehmer_iteration.
      replace (Z.to_nat (total - done)) with 0%nat by lia.
      reflexivity.
Qed.

Lemma kernel_agrees_except_61 :
  forallb
    (fun p =>
       Bool.eqb
         (Bool.eqb
            (LucasLehmerGPU.kernel_loop (Z.to_nat (p - 2)) 4 (2 ^ p - 1) =? 0)
            (LucasLehmer.iterate (Z.to_nat (p - 2)) 4 (2 ^ p - 1) =? 0))
         (negb (p =? 61)))
    (Py.range 3 64 1)
  = true.
Proof. vm_compute. reflexivity. Qed.

(** X17.  With a batch size of at least 1 the GPU Lucas-Lehmer test
    returns, and its answer is the one of the CPU test for every
    exponent except 61: there the 64-bit product [si * si] wraps and
    the GPU test answers otherwise than the CPU test. *)
Theorem lucas_lehmer_gpu_agrees_except_61 (fuel : nat) (p batch_size : Z) :
  1 <= batch_size ->
  p < Z.of_nat fuel ->
  exists b,
    LucasLehmerGPU.test fuel p batch_size = Some b /\
    (b = LucasLehmer.test p <-> p <> 61).
Proof.
  intros Hbatch Hfuel.
  unfold LucasLehmerGPU.test, LucasLehmer.test.
  destruct (p =? 2) eqn:Hp2.
  { apply Z.eqb_eq in Hp2. exists true. split; [reflexivity|]. lia. }
  apply Z.eqb_neq in Hp2.
  destruct (utils.is_prime_small p) eqn:Hsmall; cbn [negb].
  2:{ exists false. split; [reflexivity|].
      split; [intros _ ->|reflexivity].
      vm_compute in Hsmall. discriminate. }
  assert (Hp3 : 3 <= p).
  { unfold utils.is_prime_small in Hsmall.
    destruct (p <? 2) eqn:Hlt; [discriminate|].
    apply Z.ltb_ge in Hlt. lia. }
  assert (Hbig : 64 <= p -> 2 ^ p - 1 > 2 ^ 63).
  { intros Hle.
    assert (2 ^ 64 <= 2 ^ p) by (apply Z.pow_le_mono_r; lia).
    change (2 ^ 64) with (2 * 2 ^ 63) in *.
    assert (0 < 2 ^ 63) by (apply Z.pow_pos_nonneg; lia). lia. }
  destruct (p >? 10000) eqn:H10000.
  { eexists. split; [reflexivity|].
    split; [intros _|reflexivity].
    pose proof (Zgt_cases p 10000) as Hc. rewrite H10000 in Hc. lia. }
  destruct (2 ^ p - 1 >? 2 ^ 63) eqn:H63.
  { eexists. split; [reflexivity|].
    split; [intros _|reflexivity].
    intros ->. vm_compute in H63. discriminate. }
  assert (Hp63 : p <= 63).
  { pose proof (Zgt_cases (2 ^ p - 1) (2 ^ 63)) as Hc. rewrite H63 in Hc.
    destruct (Z.le_gt_cases 64 p) as [Hle|Hgt]; [specialize (Hbig Hle)|]; lia. }
  rewrite (batch_loop_spec batch_size (p - 2) (2 ^ p - 1) fuel Hbatch 0 4)
    by lia.
  eexists. split; [reflexivity|].
  unfold LucasLehmerGPU.lucas_lehmer_iteration.
  rewrite Z.sub_0_r.
  pose proof kernel_agrees_except_61 as Hall.
  rewrite forallb_forall in Hall.
  assert (Hin : In p (Py.range 3 64 1)).
  { unfold Py.range. apply range_from_In.
    exists (p - 3). split; [|lia].
    change ((64 - 3 + 1 - 1) / 1) with 61.
    change (Z.of_nat (Z.to_nat 61)) with 61. lia. }
  specialize (Hall p Hin).
  apply Bool.eqb_prop in Hall.
  destruct (p =? 61) eqn:H61; cbn [negb] in Hall.
  - apply Z.eqb_eq in H61.
    split; [intros Heq|lia].
    rewrite Heq in Hall.
    rewrite Bool.eqb_reflx in Hall. discriminate.
  - apply Z.eqb_neq in H61.
    split; [intros _; assumption|intros _].
    apply Bool.eqb_prop. exact Hall.
Qed.

Lemma batch_loop_stuck (batch_size total Mp : Z) (fuel : nat) :
  batch_size <= 0 ->
  0 < total ->
  forall done s,
    done <= 0 ->
    LucasLehmerGPU.batch_loop fuel batch_size total done s Mp = None.
Proof.
  intros Hbatch Htotal.
  induction fuel as [|fuel IH]; intros done s Hdone;
    cbn [LucasLehmerGPU.batch_loop]; [reflexivity|].
  destruct (done <? total) eqn:Hlt.
  - apply IH. lia.
  - apply Z.ltb_ge in Hlt. lia.
Qed.

(** X18.  A batch size that is zero or negative makes the GPU Lucas-Lehmer
    test loop for ever on every prime exponent from 3 to 63: the count of
    iterations done never grows. *)
Theorem lucas_lehmer_gpu_diverges_without_batch
  (fuel : nat) (p batch_size : Z) :
  - 2 ^ 31 <= batch_size <= 0 ->
  3 <= p <= 63 ->
  utils.is_prime_small p = true ->
  LucasLehmerGPU.test fuel p batch_size = None.
Proof.
  intros Hbatch Hp Hsmall.
  unfold LucasLehmerGPU.test.
  replace (p =? 2) with false by (symmetry; apply Z.eqb_neq; lia).
  rewrite Hsmall. cbn [negb].
  replace (p >? 10000) with false
    by (symmetry; rewrite Z.gtb_ltb; apply Z.ltb_ge; lia).
  replace (2 ^ p - 1 >? 2 ^ 63) with false.
  2:{ symmetry. rewrite Z.gtb_ltb. apply Z.ltb_ge.
      assert (2 ^ p <= 2 ^ 63) by (apply Z.pow_le_mono_r; lia). lia. }
  rewrite batch_loop_stuck by lia. reflexivity.
Qed.

End GpuLucasLehmer.

Lemma lucas_lehmer_gpu_agrees_except_61_witness :
  exists b,
    LucasLehmerGPU.test (H := reference_gmpy2) 62 61 1000 = Some b /\
    (b = LucasLehmer.test (H := reference_gmpy2) 61 <-> 61 <> 61).
Proof.
  apply (lucas_lehmer_gpu_agrees_except_61 (H := reference_gmpy2) 62 61 1000);
    [lia | vm_compute; reflexivity].
Defined.

Lemma lucas_lehmer_gpu_diverges_without_batch_witness :
  LucasLehmerGPU.test (H := reference_gmpy2) 100 7 0 = None.
Proof.
  apply (lucas_lehmer_gpu_diverges_without_batch (H := reference_gmpy2) 100 7 0);
    [lia | lia | reflexivity].
Defined.

(** ** The errors of the dispatcher *)

Section DispatcherErrors.

Context `{Gmpy2}.

(** X19.  With fuel for the search of the discriminant, [is_prime_cpu]
    always comes back, and it raises in exactly three cases: the name of
    the algorithm is none of auto, miller-rabin, lucas-lehmer and bpsw;
    lucas-lehmer is requested by name without the option [p]; or the
    automatic choice meets a Mersenne-form input whose exponent fails the
    small-integer check. *)
Theorem is_prime_cpu_raises_exactly (fuel : nat) (n : Z) (algorithm : string)
    (kwargs : gmap string Z) (st : random.state) :
  (Z.to_nat n <= fuel)%nat ->
  exists (r : Py.outcome bool) (st' : random.state),
    is_prime_cpu fuel n algorithm kwargs st = Some (r, st') /\
    (Py.raises r = true <->
     (algorithm <> "auto"%string /\ algorithm <> "miller-rabin"%string /\
      algorithm <> "lucas-lehmer"%string /\ algorithm <> "bpsw"%string) \/
     (algorithm = "lucas-lehmer"%string /\ kwargs !! "p"%string = None) \/
     (algorithm = "auto"%string /\ Spec.mersenne_form n = true /\
      utils.is_prime_small (Py.bit_length (n + 1) - 1) = false)).
Proof.
  intros Hfuel. unfold is_prime_cpu.
  destruct (String.eqb_spec algorithm "auto") as [->|Hauto].
  - fold (Spec.mersenne_form n).
    destruct (Spec.mersenne_form n) eqn:Hform.
    + destruct (utils.is_prime_small (Py.bit_length (n + 1) - 1)) eqn:Hsmall.
      * cbn. rewrite lookup_insert_eq.
        eexists; eexists. split; [reflexivity|]. cbn. split; [discriminate|].
        intros [(Ha & _)|[[Hl _]|(_ & _ & Hs)]]; congruence.
      * eexists; eexists. split; [reflexivity|]. cbn. split; [|reflexivity].
        intros _. right. right. repeat split.
    + cbn. unfold bind.
      destruct (bpsw_terminates BPSW.init fuel n st Hfuel) as (b & st' & ->).
      eexists; eexists. split; [reflexivity|]. cbn. split; [discriminate|].
      intros [(Ha & _)|[[Hl _]|(_ & Hf & _)]]; congruence.
  - destruct (String.eqb_spec algorithm "miller-rabin") as [->|Hmr].
    { unfold bind.
      destruct (miller_rabin_terminates
                  (MillerRabin.init (default 20 (kwargs !! "rounds"%string)))
                  n false st) as (b & st' & ->).
      eexists; eexists. split; [reflexivity|]. cbn. split; [discriminate|].
      intros [(_ & Hb & _)|[[Hl _]|(Ha & _)]]; congruence. }
    destruct (String.eqb_spec algorithm "lucas-lehmer") as [->|Hll].
    { destruct (kwargs !! "p"%string) as [p|] eqn:Hp.
      - eexists; eexists. split; [reflexivity|]. cbn. split; [discriminate|].
        intros [(_ & _ & Hb & _)|[[_ Hnone]|(Ha & _)]]; congruence.
      - eexists; eexists. split; [reflexivity|]. cbn. split; [|reflexivity].
        intros _. right. left. split; reflexivity. }
    destruct (String.eqb_spec algorithm "bpsw") as [->|Hbpsw].
    { unfold bind.
      destruct (bpsw_terminates BPSW.init fuel n st Hfuel) as (b & st' & ->).
      eexists; eexists. split; [reflexivity|]. cbn. split; [discriminate|].
      intros [(_ & _ & _ & Hb)|[[Hl _]|(Ha & _)]]; congruence. }
    eexists; eexists. split; [reflexivity|]. cbn. split; [|reflexivity].
    intros _. left. repeat split; assumption.
Qed.

End DispatcherErrors.

Lemma is_prime_cpu_raises_exactly_witness :
  exists (r : Py.outcome bool) (st' : random.state),
    is_prime_cpu (H := reference_gmpy2) 15 15 "auto" ∅ (random.of_list [])
    = Some (r, st') /\
    (Py.raises r = true <->
     ("auto"%string <> "auto"%string /\ "auto"%string <> "miller-rabin"%string /\
      "auto"%string <> "lucas-lehmer"%string /\ "auto"%string <> "bpsw"%string) \/
     ("auto"%string = "lucas-lehmer"%string /\
      (∅ : gmap string Z) !! "p"%string = None) \/
     ("auto"%string = "auto"%string /\ Spec.mersenne_form 15 = true /\
      utils.is_prime_small (H := reference_gmpy2) (Py.bit_length (15 + 1) - 1)
      = false)).
Proof.
  apply (is_prime_cpu_raises_exactly (H := reference_gmpy2) 15 15 "auto" ∅
           (random.of_list [])).
  lia.
Defined.
